(** * MCA multi-business processor: the transaction classifier and the
      business-name normalizer of [app.py]

    A shallow embedding of [map_transaction_category] and
    [clean_account_name] together with the part of Python's [str] and [re]
    they rely on, followed by what is proved of them: the labels and the
    precedence of the rules of the classifier, and, for the normalizer, its
    values on the names where it departs from its description and its
    idempotence on all the other ASCII names.

    The uses the rest of the file makes of the two are embedded as well:
    the flags [process_multiple_json_files] derives from the label, the
    discovery of the accounts of a file ([extract_business_name_from_json],
    in its two definitions) and the name derived from a file name
    ([extract_business_name_from_filename]).

    Text is modelled on the ASCII repertoire: a Python [str] is a list of
    [ascii] characters, and the character classes ([\s], [\d], [\w], hence
    [\b]) and the case mappings are those Python applies to code points
    below 128.  Codes 128..255 are carried through as caseless symbols that
    are neither word characters nor white space. *)

From Stdlib Require Import List Bool Ascii String NArith ZArith Lia.
Import ListNotations.

Local Set Warnings "-register-all".

Local Open Scope list_scope.
Local Open Scope bool_scope.

(** ** Characters and strings *)

Definition str := list ascii.

(** String literals of the source are written [py "..."]. *)
Definition py (x : string) : str := list_ascii_of_string x.

Definition code (c : ascii) : N := N_of_ascii c.

Definition between (lo hi : N) (c : ascii) : bool :=
  (lo <=? code c)%N && (code c <=? hi)%N.

Definition is_upper (c : ascii) : bool := between 65 90 c.
Definition is_lower (c : ascii) : bool := between 97 122 c.
Definition is_digit (c : ascii) : bool := between 48 57 c.

(** [str.isspace] and the class [\s]: TAB..CR, FS..US and the blank. *)
Definition is_space (c : ascii) : bool := between 9 13 c || between 28 32 c.

(** The class [\w]: letters, digits and the underscore. *)
Definition is_word (c : ascii) : bool :=
  is_upper c || is_lower c || is_digit c || (code c =? 95)%N.

Definition lower (c : ascii) : ascii :=
  if is_upper c then ascii_of_N (code c + 32) else c.

Definition upper (c : ascii) : ascii :=
  if is_lower c then ascii_of_N (code c - 32) else c.

Definition chr (c : ascii) : ascii -> bool := Ascii.eqb c.

(** A pattern character under [re.IGNORECASE]. *)
Definition chr_i (c : ascii) : ascii -> bool := fun x => Ascii.eqb (lower x) (lower c).

Fixpoint str_eqb (a b : str) : bool :=
  match a, b with
  | [], [] => true
  | x :: a', y :: b' => Ascii.eqb x y && str_eqb a' b'
  | _, _ => false
  end.

(** [s.lower()] *)
Definition str_lower (s : str) : str := map lower s.

(** [s.startswith(p)] *)
Fixpoint startswith (s p : str) : bool :=
  match p, s with
  | [], _ => true
  | x :: p', y :: s' => Ascii.eqb x y && startswith s' p'
  | _ :: _, [] => false
  end.

Fixpoint dropwhile (p : ascii -> bool) (s : str) : str :=
  match s with
  | [] => []
  | c :: t => if p c then dropwhile p t else s
  end.

(** [s.strip(chars)], the characters to strip given as a predicate. *)
Definition strip_set (p : ascii -> bool) (s : str) : str :=
  rev (dropwhile p (rev (dropwhile p s))).

(** [s.strip()] *)
Definition strip (s : str) : str := strip_set is_space s.

(** [s.split()]: the maximal runs of non-blank characters; [w] is the word
    being read. *)
Fixpoint split_from (w s : str) : list str :=
  match s with
  | [] => match w with [] => [] | _ => [w] end
  | c :: t =>
      if is_space c
      then match w with [] => split_from [] t | _ => w :: split_from [] t end
      else split_from (w ++ [c]) t
  end.

Definition split (s : str) : list str := split_from [] s.

(** [sep.join(ws)] *)
Fixpoint join (sep : str) (ws : list str) : str :=
  match ws with
  | [] => []
  | [w] => w
  | w :: rest => w ++ sep ++ join sep rest
  end.

(** [w.capitalize()] *)
Definition capitalize (w : str) : str :=
  match w with
  | [] => []
  | c :: t => upper c :: map lower t
  end.

(** [s.replace(a, b)] for single characters [a] and [b]. *)
Definition replace_chr (a b : ascii) (s : str) : str :=
  map (fun c => if Ascii.eqb c a then b else c) s.

(** ** Regular expressions

    The fragment of [re] the source uses.  Every repetition in the source
    ([\s*], [\s+], [\d+], [\d{8,}], [[_\-]+], [[\s\-]+]) is over a single
    character class, so [Star] takes a class; [x?] is [Alt x Eps] and
    [x+] is [Cat x (Star x)], both greedy as in Python. *)

Inductive regex : Type :=
| Eps : regex
| Sym : (ascii -> bool) -> regex
| Cat : regex -> regex -> regex
| Alt : regex -> regex -> regex
| Star : (ascii -> bool) -> regex
| Bnd : regex.

(** A position in the subject: the character just before it (if any) and
    the text from it on. *)
Definition pos : Type := (option ascii * str)%type.

Definition word_before (st : pos) : bool :=
  match fst st with Some c => is_word c | None => false end.

Definition word_after (st : pos) : bool :=
  match snd st with c :: _ => is_word c | [] => false end.

(** [\b]: exactly one side of the position is a word character. *)
Definition at_boundary (st : pos) : bool := xorb (word_before st) (word_after st).

(** Greedy repetition of a class: the longest run first. *)
Fixpoint star_ends (p : ascii -> bool) (prev : option ascii) (s : str) : list pos :=
  match s with
  | c :: t => if p c then star_ends p (Some c) t ++ [(prev, s)] else [(prev, s)]
  | [] => [(prev, s)]
  end.

(** All the positions where a match of [r] that starts at [st] can end, in
    the order in which Python's backtracking matcher tries them. *)
Fixpoint ends (r : regex) (st : pos) : list pos :=
  match r with
  | Eps => [st]
  | Sym p => match snd st with
             | c :: t => if p c then [(Some c, t)] else []
             | [] => []
             end
  | Cat a b => flat_map (ends b) (ends a st)
  | Alt a b => ends a st ++ ends b st
  | Star p => star_ends p (fst st) (snd st)
  | Bnd => if at_boundary st then [st] else []
  end.

Definition matches_at (r : regex) (st : pos) : bool :=
  match ends r st with [] => false | _ :: _ => true end.

(** [re.search(r, s)] as a truth value: some position of [s] starts a match. *)
Fixpoint search_from (r : regex) (prev : option ascii) (s : str) : bool :=
  matches_at r (prev, s) ||
  match s with
  | [] => false
  | c :: t => search_from r (Some c) t
  end.

Definition search (r : regex) (s : str) : bool := search_from r None s.

(** [re.sub(r, repl, s)] for a pattern that matches no empty string, which
    is the case of every pattern given to [re.sub] in the source (see
    [never_empty]).  [skip] counts the characters of the current match that
    are still to be dropped. *)
Fixpoint sub_from (r : regex) (repl : str) (skip : nat) (prev : option ascii) (s : str) : str :=
  match skip, s with
  | S k, c :: t => sub_from r repl k (Some c) t
  | S _, [] => []
  | O, _ =>
      match ends r (prev, s), s with
      | (_, rest) :: _, c :: t =>
          match List.length s - List.length rest with
          | S k => repl ++ sub_from r repl k (Some c) t
          | O => c :: sub_from r repl 0 (Some c) t
          end
      | _, c :: t => c :: sub_from r repl 0 (Some c) t
      | _, [] => []
      end
  end.

Definition sub (r : regex) (repl : str) (s : str) : str := sub_from r repl 0 None s.

(** Pattern combinators. *)

Fixpoint lit (w : str) : regex :=
  match w with
  | [] => Eps
  | c :: t => Cat (Sym (chr c)) (lit t)
  end.

Fixpoint lit_i (w : str) : regex :=
  match w with
  | [] => Eps
  | c :: t => Cat (Sym (chr_i c)) (lit_i t)
  end.

Definition opt (r : regex) : regex := Alt r Eps.
Definition plus (p : ascii -> bool) : regex := Cat (Sym p) (Star p).

Fixpoint seq (rs : list regex) : regex :=
  match rs with
  | [] => Eps
  | r :: rest => Cat r (seq rest)
  end.

(** The pattern that matches nothing, the unit of alternation. *)
Definition none : regex := Sym (fun _ => false).

Fixpoint alts (rs : list regex) : regex :=
  match rs with
  | [] => none
  | r :: rest => Alt r (alts rest)
  end.

(** [\b r \b] *)
Definition wd (r : regex) : regex := Cat Bnd (Cat r Bnd).

Definition l (w : string) : regex := lit (py w).
Definition li (w : string) : regex := lit_i (py w).

(** [\s*], [\s+], [\s?] *)
Definition sp_star : regex := Star is_space.
Definition sp_plus : regex := plus is_space.
Definition sp_opt : regex := opt (Sym is_space).

(** The class [[\s\-]], then [[\s\-]?] and [[\s\-]+]. *)
Definition space_or_dash (c : ascii) : bool := is_space c || Ascii.eqb c "-".
Definition sd_opt : regex := opt (Sym space_or_dash).
Definition sd_plus : regex := plus space_or_dash.

(** [w1 sep w2 sep ... wn] *)
Fixpoint phrase (mk : string -> regex) (sep : regex) (ws : list string) : regex :=
  match ws with
  | [] => Eps
  | [w] => mk w
  | w :: rest => Cat (mk w) (Cat sep (phrase mk sep rest))
  end.

(** ** Python values and errors *)

(** A [float]: a finite double is [m * 2^e]; both zeros are [m = 0]. *)
Inductive pyfloat : Type :=
| FNan : pyfloat
| FInf (negative : bool) : pyfloat
| FFinite (m e : Z) : pyfloat.

(** The values [json.load] produces. *)
Inductive pyval : Type :=
| PyNone : pyval
| PyBool (b : bool) : pyval
| PyInt (z : Z) : pyval
| PyFloat (f : pyfloat) : pyval
| PyStr (s : str) : pyval
| PyList (vs : list pyval) : pyval
| PyDict (kvs : list (str * pyval)) : pyval.

Inductive exn : Type := TypeError.

Inductive result (A : Type) : Type :=
| Ok (a : A) : result A
| Raise (e : exn) : result A.

Arguments Ok {A} a.
Arguments Raise {A} e.

Definition bind {A B : Type} (m : result A) (k : A -> result B) : result B :=
  match m with
  | Ok a => k a
  | Raise e => Raise e
  end.

Notation "x <- m ;; k" := (bind m (fun x => k))
  (at level 61, m at next level, right associativity).

(** [v < 0]: defined between numbers ([bool] is a subtype of [int]); any
    other operand raises [TypeError]. *)
Definition lt0 (v : pyval) : result bool :=
  match v with
  | PyBool _ => Ok false
  | PyInt z => Ok (z <? 0)%Z
  | PyFloat FNan => Ok false
  | PyFloat (FInf negative) => Ok negative
  | PyFloat (FFinite m _) => Ok (m <? 0)%Z
  | PyNone | PyStr _ | PyList _ | PyDict _ => Raise TypeError
  end.

(** [v > 0] *)
Definition gt0 (v : pyval) : result bool :=
  match v with
  | PyBool b => Ok b
  | PyInt z => Ok (0 <? z)%Z
  | PyFloat FNan => Ok false
  | PyFloat (FInf negative) => Ok (negb negative)
  | PyFloat (FFinite m _) => Ok (0 <? m)%Z
  | PyNone | PyStr _ | PyList _ | PyDict _ => Raise TypeError
  end.

(** [v == 0] *)
Definition eq0 (v : pyval) : bool :=
  match v with
  | PyBool b => negb b
  | PyInt z => (z =? 0)%Z
  | PyFloat (FFinite m _) => (m =? 0)%Z
  | _ => false
  end.

Definition is_number (v : pyval) : bool :=
  match v with
  | PyBool _ | PyInt _ | PyFloat _ => true
  | _ => false
  end.

(** ** The transaction record *)

(** A description field: one string or a list of strings (section 3 of the
    specification). *)
Inductive text : Type :=
| TStr (s : str) : text
| TList (ss : list str) : text.

(** The four keys [map_transaction_category] reads with [transaction.get];
    [None] is a key the dict does not have. *)
Record transaction : Type := {
  name : option text;
  merchant_name : option text;
  personal_finance_category_detailed : option text;
  amount : option pyval
}.

(** [transaction.get(key, "")] followed by
    [" ".join(map(str, v)) if isinstance(v, list) else str(v)]. *)
Definition text_field (f : option text) : str :=
  match f with
  | None => []
  | Some (TStr s) => s
  | Some (TList ss) => join (py " ") ss
  end.

(** ** The classifier *)

Definition MCA_CATEGORIES : list str :=
  [ py "Income";
    py "Special Inflow";
    py "Loans";
    py "Debt Repayments";
    py "Expenses";
    py "Special Outflow";
    py "Failed Payment";
    py "Uncategorised" ].

(** Step 1, first pattern (lines 258-267), under [(?i)]. *)
Definition processor_re : regex :=
  wd (alts [
    li "stripe"; li "sumup"; li "zettle"; li "square";
    seq [li "take"; sp_star; li "payments"]; li "shopify";
    seq [li "card"; sp_plus; li "settlement"];
    seq [li "daily"; sp_plus; li "takings"]; li "payout";
    li "paypal"; seq [li "go"; sp_star; li "cardless"]; li "klarna";
    li "worldpay"; li "izettle"; li "ubereats";
    seq [li "just"; sp_star; li "eat"]; li "deliveroo"; li "uber"; li "bolt";
    li "fresha"; li "treatwell"; li "taskrabbit"; li "terminal";
    seq [li "pos"; sp_plus; li "deposit"]; li "revolut";
    seq [li "capital"; sp_plus; li "on"; sp_plus; li "tap"];
    seq [li "capital"; sp_plus; li "one"];
    seq [li "evo"; sp_star; li "payment"; opt (li "s")]; li "tink";
    seq [li "teya"; opt (seq [sp_plus; li "solutions"])]; li "talech";
    li "barclaycard"; li "elavon"; li "adyen"; li "payzone"; li "verifone";
    li "ingenico";
    li "nmi"; seq [li "trust"; sp_plus; li "payment"; opt (li "s")];
    seq [li "global"; sp_plus; li "payment"; opt (li "s")];
    li "checkout.com"; li "epdq"; li "santander"; li "handepay";
    li "dojo"; li "valitor"; li "paypoint"; li "mypos"; li "moneris";
    seq [li "merchant"; sp_plus; li "services"];
    seq [li "payment"; sp_plus; li "sense"]
  ]).

(** Line 271. *)
Definition youlend_re : regex :=
  alts [
    seq [l "you"; sp_opt; l "lend"];
    seq [l "yl"; sp_opt; l "ii"];
    seq [l "yl"; sp_opt; l "ltd"];
    seq [l "yl"; sp_opt; l "limited"];
    seq [l "yl"; sp_opt; l "a"; sp_opt; l "limited"]
  ].

(** Line 273. *)
Definition funding_re : regex := alts [l "fnd"; l "fund"; l "funding"].

(** The lender brands: lines 278-287 and lines 293-300 list the same
    thirty-four, in the same order, each between [\b] and with [[\s\-]?]
    between its words. *)
Definition lender_brands : list regex :=
  map (fun ws => wd (phrase l sd_opt ws))
  [ ["iwoca"]; ["capify"]; ["fundbox"]; ["got"; "capital"];
    ["funding"; "circle"]; ["fleximize"]; ["marketfinance"]; ["liberis"];
    ["esme"; "loans"]; ["thincats"]; ["white"; "oak"]; ["growth"; "street"];
    ["nucleus"; "commercial"; "finance"]; ["ultimate"; "finance"];
    ["just"; "cash"; "flow"]; ["boost"; "capital"]; ["merchant"; "money"];
    ["capital"; "on"; "tap"]; ["kriya"]; ["uncapped"]; ["lendingcrowd"];
    ["folk2folk"]; ["funding"; "tree"]; ["start"; "up"; "loans"];
    ["bcrs"; "business"; "loans"]; ["business"; "enterprise"; "fund"];
    ["swig"; "finance"]; ["enterprise"; "answers"];
    ["let's"; "do"; "business"; "finance"]; ["finance"; "for"; "enterprise"];
    ["dsl"; "business"; "finance"]; ["bizcap"; "uk"]; ["sigma"; "lending"];
    ["bizlend"; "ltd"] ]%string.

(** Lines 278-287: the brands, then [\bloans?\b]. *)
Definition lender_re : regex :=
  alts (lender_brands ++ [ wd (seq [l "loan"; opt (l "s")]) ]).

(** Lines 293-301: the brands, then the repayment vocabulary. *)
Definition repayment_re : regex :=
  alts (lender_brands ++
    [ wd (seq [l "loan"; sd_opt; l "repayment"]);
      wd (seq [l "debt"; sd_opt; l "repayment"]);
      wd (seq [l "insta"; opt (l "l"); l "ment"; opt (l "s")]);
      wd (seq [l "pay"; sd_plus; l "back"]);
      wd (seq [l "repay"; opt (alts [l "ing"; l "ment"; l "ed"])]) ]).

(** Step 1.5 (line 307), under [re.IGNORECASE]. *)
Definition software_re : regex :=
  alts [
    li "facebook"; li "facebk"; li "fb.me"; li "outlook"; li "office365";
    li "microsoft"; seq [li "google"; sp_plus; li "ads"]; li "linkedin";
    li "twitter"; li "adobe"; li "zoom"; li "slack"; li "shopify"; li "wix";
    li "squarespace"; li "mailchimp"; li "hubspot"
  ].

(** Line 336, under [re.IGNORECASE]. *)
Definition loan_vocabulary_re : regex :=
  alts [
    li "loan"; li "debt"; li "repay"; li "finance"; li "lending"; li "credit";
    li "iwoca"; li "capify"; li "fundbox"
  ].

Definition plaid_map : list (str * str) :=
  [ (py "income_wages", py "Income");
    (py "income_other_income", py "Income");
    (py "income_dividends", py "Special Inflow");
    (py "income_interest_earned", py "Special Inflow");
    (py "income_retirement_pension", py "Special Inflow");
    (py "income_unemployment", py "Special Inflow");
    (py "transfer_in_cash_advances_and_loans", py "Loans");
    (py "transfer_in_investment_and_retirement_funds", py "Special Inflow");
    (py "transfer_in_savings", py "Special Inflow");
    (py "transfer_in_account_transfer", py "Special Inflow");
    (py "transfer_in_other_transfer_in", py "Special Inflow");
    (py "transfer_in_deposit", py "Special Inflow");
    (py "transfer_out_investment_and_retirement_funds", py "Special Outflow");
    (py "transfer_out_savings", py "Special Outflow");
    (py "transfer_out_other_transfer_out", py "Special Outflow");
    (py "transfer_out_withdrawal", py "Special Outflow");
    (py "transfer_out_account_transfer", py "Special Outflow");
    (py "bank_fees_insufficient_funds", py "Failed Payment");
    (py "bank_fees_late_payment", py "Failed Payment") ].

(** [d.get(k)] on a dict literal. *)
Fixpoint lookup (k : str) (d : list (str * str)) : option str :=
  match d with
  | [] => None
  | (k', v) :: rest => if str_eqb k k' then Some v else lookup k rest
  end.

Definition broad_matchers : list (str * list str) :=
  [ (py "Expenses",
     [ py "bank_fees_"; py "entertainment_"; py "food_and_drink_";
       py "general_merchandise_"; py "general_services_";
       py "government_and_non_profit_"; py "home_improvement_";
       py "medical_"; py "personal_care_"; py "rent_and_utilities_";
       py "transportation_"; py "travel_" ]) ].

(** The loop of lines 353-355: the label of the first entry one of whose
    prefixes starts [category]. *)
Fixpoint first_broad (category : str) (ms : list (str * list str)) : option str :=
  match ms with
  | [] => None
  | (label, patterns) :: rest =>
      if existsb (startswith category) patterns then Some label
      else first_broad category rest
  end.

(** Lines 229-241 and 251: the two description fields, lower-cased and
    joined by a blank. *)
Definition combined_text (t : transaction) : str :=
  str_lower (text_field (name t)) ++ py " " ++ str_lower (text_field (merchant_name t)).

(** Lines 243-248. *)
Definition category_of (t : transaction) : str :=
  replace_chr " " "_"
    (strip (str_lower (text_field (personal_finance_category_detailed t)))).

(** Line 250: [transaction.get("amount", 0)]. *)
Definition amount_of (t : transaction) : pyval :=
  match amount t with
  | Some v => v
  | None => PyInt 0
  end.

(** Steps 2 and 3 and the default (lines 333-361). *)
Definition plaid_fallback (is_debit : bool) (category text : str) : str :=
  if startswith category (py "loan_payments_") && search loan_vocabulary_re text
  then py "Debt Repayments"
  else
    match lookup category plaid_map with
    | Some label => label
    | None =>
        match first_broad category broad_matchers with
        | Some label => label
        | None => if is_debit then py "Expenses" else py "Uncategorised"
        end
    end.

(** The cascade of lines 256-361, first match wins. *)
Definition cascade (is_credit is_debit : bool) (category text : str) : str :=
  if is_credit && search processor_re text then py "Income"
  else if is_credit && search youlend_re text then
    (if search funding_re text then py "Loans" else py "Income")
  else if is_credit && search lender_re text then py "Loans"
  else if is_debit && search repayment_re text then py "Debt Repayments"
  else if search software_re text then py "Expenses"
  else plaid_fallback is_debit category text.

Definition map_transaction_category (t : transaction) : result str :=
  let category := category_of t in
  let amount := amount_of t in
  let combined_text := combined_text t in
  is_credit <- lt0 amount ;;
  is_debit <- gt0 amount ;;
  Ok (cascade is_credit is_debit category combined_text).

(** ** The business-name normalizer *)

(** [\d{n,}] *)
Fixpoint at_least (n : nat) (p : ascii -> bool) : regex :=
  match n with
  | O => Star p
  | S k => Cat (Sym p) (at_least k p)
  end.

(** Lines 84-110, each applied under [re.IGNORECASE]. *)
Definition remove_terms : list regex :=
  [ wd (seq [li "current"; sp_plus; li "account"]);
    wd (seq [li "business"; sp_plus; li "account"]);
    wd (seq [li "savings"; sp_plus; li "account"]);
    wd (seq [li "checking"; sp_plus; li "account"]);
    wd (seq [li "company"; sp_plus; li "account"]);
    wd (li "account");
    wd (li "current");
    wd (li "savings");
    wd (li "checking");
    wd (li "business");
    wd (li "company");
    wd (li "bus");
    wd (li "curr");
    wd (li "acc");
    wd (seq [li "ltd"; sp_plus; li "current"]);
    wd (seq [li "ltd"; sp_plus; li "business"]);
    wd (seq [li "limited"; sp_plus; li "current"]);
    wd (seq [li "limited"; sp_plus; li "business"]);
    seq [Bnd; li "-"; sp_star; plus is_digit; Bnd];
    seq [li "("; plus is_digit; li ")"];
    seq [li "["; plus is_digit; li "]"];
    wd (at_least 8 is_digit);
    wd (seq [li "sort"; sp_star; li "code"]);
    wd (li "iban");
    wd (li "swift") ].

(** The class [[_\-]]. *)
Definition underscore_or_dash (c : ascii) : bool :=
  Ascii.eqb c "_" || Ascii.eqb c "-".

(** The characters of [' .,;:()[]{}'] (line 118). *)
Definition punctuation (c : ascii) : bool :=
  existsb (Ascii.eqb c) (py " .,;:()[]{}").

(** [' '.join(word.capitalize() for word in s.split())] *)
Definition capitalize_words (s : str) : str :=
  join (py " ") (map capitalize (split s)).

(** Lines 112-121. *)
Definition cleaned (name : str) : str :=
  let name := fold_left (fun name term => sub term [] name) remove_terms name in
  let name := sub (plus underscore_or_dash) (py " ") name in
  let name := sub (plus is_space) (py " ") name in
  let name := strip_set punctuation name in
  capitalize_words name.

(** [account_name] is [None] for Python's [None]; [not account_name] holds
    of [None] and of the empty string. *)
Definition clean_account_name (account_name : option str) : str :=
  match account_name with
  | None | Some [] => py "Unknown Business"
  | Some a =>
      let name := cleaned (strip a) in
      if List.length name <? 2
      then
        let original := strip a in
        capitalize_words original
      else name
  end.

(** ** Vocabulary of the statements *)

(** The character a text ends with, and the one it starts with. *)
Definition last_char (s : str) : option ascii := last (map Some s) None.
Definition first_char (s : str) : option ascii := hd_error s.

Definition word_char (o : option ascii) : bool :=
  match o with
  | Some c => is_word c
  | None => false
  end.

(** No word character immediately before, respectively after, an
    occurrence that lies between [pre] and [post]. *)
Definition free_left (pre : str) : Prop := word_char (last_char pre) = false.
Definition free_right (post : str) : Prop := word_char (first_char post) = false.

(** Some keyword rule of steps 1 and 1.5 fires. *)
Definition keyword_rule_fires (is_credit is_debit : bool) (text : str) : bool :=
  is_credit && search processor_re text
  || is_credit && search youlend_re text
  || is_credit && search lender_re text
  || is_debit && search repayment_re text
  || search software_re text.

(** The character before the position reached by reading [w] from a
    position that has [prev] before it. *)
Definition after (prev : option ascii) (w : str) : option ascii :=
  last (map Some w) prev.

(** Some removable term of [remove_terms] still matches in [s]. *)
Definition has_boilerplate (s : str) : bool :=
  existsb (fun term => search term s) remove_terms.

(** A sufficient syntactic condition for a pattern to match no empty
    string. *)
Fixpoint consumes (r : regex) : bool :=
  match r with
  | Sym _ => true
  | Cat a b => consumes a || consumes b
  | Alt a b => consumes a && consumes b
  | Eps | Star _ | Bnd => false
  end.

(** ** Sample inputs *)

(** A record with string fields and the given amount. *)
Definition record (n m c : string) (a : pyval) : transaction :=
  {| name := Some (TStr (py n));
     merchant_name := Some (TStr (py m));
     personal_finance_category_detailed := Some (TStr (py c));
     amount := Some a |}.

(** A record without the [amount] key. *)
Definition record_without_amount (n m c : string) : transaction :=
  {| name := Some (TStr (py n));
     merchant_name := Some (TStr (py m));
     personal_finance_category_detailed := Some (TStr (py c));
     amount := None |}.

(** ** Auxiliary functions for the normalizer *)

(** Each maximal run of [p]-characters replaced by one blank; [inrun]
    tells that the character before belongs to a run. *)
Fixpoint collapse_from (p : ascii -> bool) (inrun : bool) (s : str) : str :=
  match s with
  | [] => []
  | c :: t =>
      if p c
      then if inrun then collapse_from p true t
           else " "%char :: collapse_from p true t
      else c :: collapse_from p false t
  end.

Definition collapse (p : ascii -> bool) (s : str) : str := collapse_from p false s.

(** The number of [p]-characters [s] starts with. *)
Fixpoint run_length (p : ascii -> bool) (s : str) : nat :=
  match s with
  | c :: t => if p c then S (run_length p t) else 0
  | [] => 0
  end.

(** Case analysis on the 256 characters. *)
Ltac by_cases c := destruct c as [[] [] [] [] [] [] [] []]; reflexivity.

Definition is_nil (w : str) : bool :=
  match w with
  | [] => true
  | _ :: _ => false
  end.

(** The character [o], if there is one, is outside the class [p]. *)
Definition avoids (p : ascii -> bool) (o : option ascii) : Prop :=
  match o with
  | Some c => p c = false
  | None => True
  end.

Definition blank_free (w : str) : Prop := Forall (fun c => is_space c = false) w.

(** What [split] returns: words that are not empty and hold no blank. *)
Definition word (w : str) : Prop := w <> [] /\ blank_free w.

(** A character that, when it is a blank, is the plain blank. *)
Definition plain (c : ascii) : Prop := is_space c = true -> c = " "%char.

(** Lines 112-113: the removable terms, one after the other. *)
Definition remove_all (terms : list regex) (name : str) : str :=
  fold_left (fun name term => sub term [] name) terms name.

(** Lines 116-121: what follows the removal of the terms. *)
Definition tidy_up (name : str) : str :=
  capitalize_words
    (strip_set punctuation
       (sub (plus is_space) (py " ") (sub (plus underscore_or_dash) (py " ") name))).

(** [split_from] for an arbitrary class of separators. *)
Fixpoint split_by (q : ascii -> bool) (w s : str) : list str :=
  match s with
  | [] => match w with [] => [] | _ => [w] end
  | c :: t =>
      if q c
      then match w with [] => split_by q [] t | _ => w :: split_by q [] t end
      else split_by q (w ++ [c]) t
  end.

(** The separators of [tidy_up]: blanks, underscores and dashes. *)
Definition separator (c : ascii) : bool := underscore_or_dash c || is_space c.

(** *** Blank-insensitive matching *)

Definition blank_before (st : pos) : bool :=
  match fst st with Some c => is_space c | None => false end.

Definition blank_after (st : pos) : bool :=
  match snd st with c :: _ => is_space c | [] => false end.

(** A position that is not inside a run of blanks. *)
Definition sync (st : pos) : Prop := blank_before st && blank_after st = false.

Definition plain_blank (c : ascii) : ascii := if is_space c then " "%char else c.

(** The position of the text with collapsed blanks that corresponds to a
    position outside the runs. *)
Definition squeezed (st : pos) : pos :=
  (option_map plain_blank (fst st), collapse is_space (snd st)).

(** A pattern that matches only from a character that is no blank. *)
Definition solid (r : regex) : Prop :=
  forall st e, In e (ends r st) -> snd st <> [] /\ blank_after st = false.

(** A pattern that matches only from positions outside the runs. *)
Definition anchored (r : regex) : Prop :=
  forall st e, In e (ends r st) -> sync st.

(** Patterns in which blanks are read only by [\s*] and [\s+] followed by
    a solid pattern. *)
Inductive robust : regex -> Prop :=
| robust_eps : robust Eps
| robust_sym p : (forall c, p c = true -> is_space c = false) -> robust (Sym p)
| robust_star p : (forall c, p c = true -> is_space c = false) -> robust (Star p)
| robust_bnd : robust Bnd
| robust_cat a b : robust a -> robust b -> robust (Cat a b)
| robust_blanks_star b : robust b -> solid b -> robust (Cat (Star is_space) b)
| robust_blanks_plus b : robust b -> solid b -> robust (Cat (plus is_space) b).

(** Patterns that do not tell a letter from its lower case. *)
Inductive case_blind : regex -> Prop :=
| case_blind_eps : case_blind Eps
| case_blind_sym p : (forall c, p (lower c) = p c) -> case_blind (Sym p)
| case_blind_star p : (forall c, p (lower c) = p c) -> case_blind (Star p)
| case_blind_bnd : case_blind Bnd
| case_blind_cat a b : case_blind a -> case_blind b -> case_blind (Cat a b)
| case_blind_alt a b : case_blind a -> case_blind b -> case_blind (Alt a b).

Definition lower_pos (st : pos) : pos :=
  (option_map lower (fst st), str_lower (snd st)).

(** ** The orchestrator's use of the label *)

(** Lines 363-368. *)
Definition categorize_transaction (transaction_dict : transaction) : result str :=
  category <- map_transaction_category transaction_dict ;;
  Ok category.

(** [x in l] for a list of strings. *)
Definition mem (x : str) (l : list str) : bool := existsb (str_eqb x) l.

(** Lines 419-423 of [process_multiple_json_files]: the four flags, in the
    order [is_revenue], [is_expense], [is_debt_repayment], [is_debt]. *)
Definition is_revenue (mca_subcategory : str) : bool :=
  mem mca_subcategory [py "Income"; py "Special Inflow"].
Definition is_expense (mca_subcategory : str) : bool :=
  mem mca_subcategory [py "Expenses"; py "Special Outflow"].
Definition is_debt_repayment (mca_subcategory : str) : bool :=
  mem mca_subcategory [py "Debt Repayments"].
Definition is_debt (mca_subcategory : str) : bool :=
  mem mca_subcategory [py "Loans"].

(** The number of flags that are set. *)
Definition flags_set (mca_subcategory : str) : nat :=
  (if is_revenue mca_subcategory then 1 else 0)
  + (if is_expense mca_subcategory then 1 else 0)
  + (if is_debt_repayment mca_subcategory then 1 else 0)
  + (if is_debt mca_subcategory then 1 else 0).

(** The prefixes of [broad_matchers], whatever their label. *)
Definition broad_prefixes : list str := List.concat (map snd broad_matchers).

(** The validated loan-payment hint of lines 334-337 fires. *)
Definition loan_hint_fires (category text : str) : bool :=
  startswith category (py "loan_payments_") && search loan_vocabulary_re text.

(** [w in s] for strings: [w] occurs somewhere in [s]. *)
Definition contains (w s : str) : Prop := exists pre post, s = pre ++ w ++ post.

(** ** Account discovery *)

(** [d.get(key, default)] for a key that may be missing. *)
Definition get {A : Type} (o : option A) (default : A) : A :=
  match o with
  | Some v => v
  | None => default
  end.

(** An element of [json_data['accounts']]: the four keys that are read,
    each missing ([None]) or holding a string. *)
Module Acct.
Record t : Type := {
  account_id : option str;
  name : option str;
  type : option str;
  subtype : option str
}.
End Acct.

(** A value of the dict [account_info]. *)
Module Info.
Record t : Type := {
  name : str;
  type : str;
  subtype : str;
  count : nat;
  account_ids : list str
}.
End Info.

(** [account_info] is a dict; Python keeps its keys in the order of their
    insertion, so it is a list of pairs with distinct keys. *)
Definition account_dict : Type := list (str * Info.t).

(** [account_info.keys()] *)
Definition keys (account_info : account_dict) : list str := map fst account_info.

(** Lines 536-537: one more account under a name that is a key. *)
Fixpoint count_again (account_name account_id : str) (account_info : account_dict)
  : account_dict :=
  match account_info with
  | [] => []
  | (k, e) :: rest =>
      if str_eqb account_name k
      then (k, {| Info.name := Info.name e;
                  Info.type := Info.type e;
                  Info.subtype := Info.subtype e;
                  Info.count := Info.count e + 1;
                  Info.account_ids := Info.account_ids e ++ [account_id] |}) :: rest
      else (k, e) :: count_again account_name account_id rest
  end.

(** Lines 522-537: the body of the loop. *)
Definition add_account (account_info : account_dict) (account : Acct.t) : account_dict :=
  let account_id := get (Acct.account_id account) [] in
  let account_name := get (Acct.name account) (py "Unknown Account") in
  let account_type := get (Acct.type account) [] in
  let account_subtype := get (Acct.subtype account) [] in
  if negb (mem account_name (keys account_info))
  then account_info ++
       [(account_name, {| Info.name := account_name;
                          Info.type := account_type;
                          Info.subtype := account_subtype;
                          Info.count := 1;
                          Info.account_ids := [account_id] |})]
  else count_again account_name account_id account_info.

(** Lines 515-549, the definition in force (it replaces the one of line
    55).  [accounts] is [json_data.get('accounts')], [None] when the key is
    missing.  [account_names[0]] is read from a list that is not empty. *)
Definition extract_business_name_from_json (accounts : option (list Acct.t)) (filename : str)
  : str * list str * account_dict :=
  match get accounts [] with
  | [] => (py "Unknown Business (" ++ filename ++ py ")", [], [])
  | accounts =>
      let account_info := fold_left add_account accounts [] in
      let account_names := keys account_info in
      if List.length account_names =? 1
      then (clean_account_name (Some (nth 0 account_names [])), account_names, account_info)
      else (clean_account_name (Some (nth 0 account_names [])), account_names, account_info)
  end.

(** Lines 64-67 of the first definition: the body of its loop. *)
Definition add_name (account_names : list str) (account : Acct.t) : list str :=
  let name := get (Acct.name account) (py "Unknown Account") in
  if negb (mem name account_names) then account_names ++ [name] else account_names.

(** Lines 55-74, the first definition. *)
Definition extract_business_name_from_json_first
  (accounts : option (list Acct.t)) (filename : str) : str * list str :=
  match get accounts [] with
  | [] => (py "Unknown Business (" ++ filename ++ py ")", [])
  | accounts =>
      let account_names := fold_left add_name accounts [] in
      if List.length account_names =? 1
      then (clean_account_name (Some (nth 0 account_names [])), account_names)
      else (clean_account_name (Some (nth 0 account_names [])), account_names)
  end.

(** The name, identifier, type and subtype an account is filed under. *)
Definition name_of (a : Acct.t) : str := get (Acct.name a) (py "Unknown Account").
Definition id_of (a : Acct.t) : str := get (Acct.account_id a) [].
Definition type_of (a : Acct.t) : str := get (Acct.type a) [].
Definition subtype_of (a : Acct.t) : str := get (Acct.subtype a) [].

(** The identifiers of the accounts named [k], in the order of the file. *)
Definition ids_named (k : str) (accounts : list Acct.t) : list str :=
  map id_of (filter (fun a => str_eqb (name_of a) k) accounts).

(** The first account named [k]. *)
Definition first_named (k : str) (accounts : list Acct.t) : option Acct.t :=
  find (fun a => str_eqb (name_of a) k) accounts.

(** The sum of the counts. *)
Definition total_count (account_info : account_dict) : nat :=
  fold_right (fun kv n => Info.count (snd kv) + n) 0 account_info.

(** ** The name derived from a file name *)

(** [p.rfind(c)]: the last index of [c] in [p], or -1; [i] is the index of
    the head of [p] and [found] the last index seen so far. *)
Fixpoint rfind_from (c : ascii) (p : str) (i found : Z) : Z :=
  match p with
  | [] => found
  | d :: t => rfind_from c t (i + 1) (if Ascii.eqb d c then i else found)
  end.

Definition rfind (c : ascii) (p : str) : Z := rfind_from c p 0 (-1).

(** [p[i:j]], [p[:j]] and [p[i:]] for indices that are not negative. *)
Definition slice (p : str) (i j : Z) : str :=
  firstn (Z.to_nat (j - i)) (skipn (Z.to_nat i) p).

(** The loop of [genericpath._splitext]: some character is not a dot. *)
Fixpoint some_not_dot (s : str) : bool :=
  match s with
  | [] => false
  | c :: t => if negb (Ascii.eqb c ".") then true else some_not_dot t
  end.

(** [os.path.splitext(p)] as [posixpath] defines it: the extension starts
    at the last dot of the last component, unless only dots precede it
    there. *)
Definition splitext (p : str) : str * str :=
  let sepIndex := rfind "/" p in
  let dotIndex := rfind "." p in
  if (sepIndex <? dotIndex)%Z && some_not_dot (slice p (sepIndex + 1) dotIndex)
  then (firstn (Z.to_nat dotIndex) p, skipn (Z.to_nat dotIndex) p)
  else (p, []).

(** [\d{1,2}] *)
Definition one_or_two (p : ascii -> bool) : regex := Cat (Sym p) (opt (Sym p)).

(** Line 136: [[-_]+]. *)
Definition separators_re : regex := plus underscore_or_dash.

(** Line 139, under [re.IGNORECASE]. *)
Definition file_words_re : regex :=
  wd (alts [ seq [li "transaction"; opt (li "s")]; li "data"; li "export";
             li "statement"; li "bank"; li "account" ]).

(** Line 142. *)
Definition date_re : regex :=
  seq [ Bnd; Sym is_digit; Sym is_digit; Sym is_digit; Sym is_digit;
        opt (seq [l "-"; one_or_two is_digit]);
        opt (seq [l "-"; one_or_two is_digit]); Bnd ].

(** Line 145, under [re.IGNORECASE]. *)
Definition months_re : regex :=
  wd (alts [ li "jan"; li "feb"; li "mar"; li "apr"; li "may"; li "jun";
             li "jul"; li "aug"; li "sep"; li "oct"; li "nov"; li "dec";
             li "january"; li "february"; li "march"; li "april"; li "may";
             li "june"; li "july"; li "august"; li "september"; li "october";
             li "november"; li "december" ]).

(** Lines 130-151. *)
Definition extract_business_name_from_filename (filename : str) : str :=
  let name := fst (splitext filename) in
  let name := sub separators_re (py " ") name in
  let name := sub file_words_re [] name in
  let name := sub date_re [] name in
  let name := sub months_re [] name in
  let name := strip (join (py " ") (split name)) in
  let name := capitalize_words name in
  match name with
  | [] => py "Unknown Business"
  | _ => name
  end.

(** What the caller unpacks (line 711). *)
Definition extracted_name (r : str * list str * account_dict) : str := fst (fst r).
Definition account_options (r : str * list str * account_dict) : list str := snd (fst r).
Definition account_info (r : str * list str * account_dict) : account_dict := snd r.

(** An entry of the dict that describes the accounts [p] read so far. *)
Definition filed (p : list Acct.t) (kv : str * Info.t) : Prop :=
  Info.name (snd kv) = fst kv /\
  Info.account_ids (snd kv) = ids_named (fst kv) p /\
  Info.count (snd kv) = List.length (ids_named (fst kv) p) /\
  exists a, first_named (fst kv) p = Some a /\
            Info.type (snd kv) = type_of a /\
            Info.subtype (snd kv) = subtype_of a.

(** The dict [d] describes the accounts [p]. *)
Definition consistent (p : list Acct.t) (d : account_dict) : Prop :=
  NoDup (keys d) /\
  (forall k, In k (keys d) <-> In k (map name_of p)) /\
  Forall (filed p) d /\
  total_count d = List.length p.

(** Sample accounts: two under one name and one without a name. *)
Definition acme_current : Acct.t :=
  {| Acct.account_id := Some (py "a1");
     Acct.name := Some (py "Acme Ltd Current Account");
     Acct.type := Some (py "depository");
     Acct.subtype := Some (py "checking") |}.

Definition unnamed_account : Acct.t :=
  {| Acct.account_id := Some (py "a2");
     Acct.name := None;
     Acct.type := None;
     Acct.subtype := None |}.

Definition acme_credit : Acct.t :=
  {| Acct.account_id := Some (py "a3");
     Acct.name := Some (py "Acme Ltd Current Account");
     Acct.type := Some (py "credit");
     Acct.subtype := None |}.

Definition sample_accounts : list Acct.t :=
  [acme_current; unnamed_account; acme_credit].

(** [\b\d{4}\b]: the pattern of line 142 without its optional groups. *)
Definition year_re : regex :=
  seq [ Bnd; Sym is_digit; Sym is_digit; Sym is_digit; Sym is_digit; Bnd ].

(** A text without underscore and without dash. *)
Definition dash_free (s : str) : Prop :=
  Forall (fun c => underscore_or_dash c = false) s.

(** Text of the ASCII repertoire: every code below 128.  On such text
    [lower], [upper], [capitalize] and the character classes are those of
    Python. *)
Definition is_ascii (c : ascii) : bool := (code c <? 128)%N.

Definition ascii_only (s : str) : Prop := forallb is_ascii s = true.

(** An argument of [clean_account_name] that is [None] or ASCII text. *)
Definition ascii_name (account_name : option str) : Prop :=
  match account_name with
  | Some a => ascii_only a
  | None => True
  end.

(** Membership in a list given in full. *)
Ltac in_enum :=
  unfold MCA_CATEGORIES;
  repeat (first [ left; reflexivity | right ]).

(** ** The matcher *)

Section Matcher.

Lemma ends_cat a b st mid e :
  In mid (ends a st) -> In e (ends b mid) -> In e (ends (Cat a b) st).
Proof.
  intros Ha Hb. simpl. apply in_flat_map. exists mid. split; assumption.
Qed.

Lemma ends_alts rs r st e :
  In r rs -> In e (ends r st) -> In e (ends (alts rs) st).
Proof.
  induction rs as [|r0 rs IH]; intros Hin He.
  - destruct Hin.
  - simpl. apply in_or_app. destruct Hin as [-> | Hin].
    + left. exact He.
    + right. apply IH; assumption.
Qed.

Lemma after_cons prev c w : after prev (c :: w) = after (Some c) w.
Proof.
  unfold after. revert prev c. induction w as [|d w IH]; intros prev c.
  - reflexivity.
  - change (map Some (c :: d :: w)) with (Some c :: map Some (d :: w)).
    change (last (Some c :: map Some (d :: w)) prev)
      with (last (map Some (d :: w)) prev).
    rewrite (IH prev d). rewrite (IH (Some c) d). reflexivity.
Qed.

Lemma ends_lit w prev rest :
  In (after prev w, rest) (ends (lit w) (prev, w ++ rest)).
Proof.
  revert prev. induction w as [|c w IH]; intro prev.
  - left. reflexivity.
  - rewrite after_cons.
    apply ends_cat with (mid := (Some c, w ++ rest)).
    + simpl. unfold chr. rewrite Ascii.eqb_refl. left. reflexivity.
    + apply IH.
Qed.

Lemma ends_lit_i w prev rest :
  In (after prev w, rest) (ends (lit_i w) (prev, w ++ rest)).
Proof.
  revert prev. induction w as [|c w IH]; intro prev.
  - left. reflexivity.
  - rewrite after_cons.
    apply ends_cat with (mid := (Some c, w ++ rest)).
    + simpl. unfold chr_i. rewrite Ascii.eqb_refl. left. reflexivity.
    + apply IH.
Qed.

Lemma matches_at_intro r st e : In e (ends r st) -> matches_at r st = true.
Proof.
  unfold matches_at. destruct (ends r st); [intros [] | reflexivity].
Qed.

Lemma ends_wd r st e :
  at_boundary st = true -> In e (ends r st) -> at_boundary e = true ->
  In e (ends (wd r) st).
Proof.
  intros Hst He Hend. unfold wd.
  apply ends_cat with (mid := st).
  - simpl. rewrite Hst. left. reflexivity.
  - apply ends_cat with (mid := e); [exact He|].
    simpl. rewrite Hend. left. reflexivity.
Qed.

Lemma search_from_intro r pre s prev :
  matches_at r (after prev pre, s) = true -> search_from r prev (pre ++ s) = true.
Proof.
  revert prev. induction pre as [|c pre IH]; intros prev H.
  - change (after prev []) with prev in H.
    destruct s; simpl; rewrite H; reflexivity.
  - rewrite after_cons in H.
    change (search_from r prev ((c :: pre) ++ s))
      with (matches_at r (prev, c :: pre ++ s) || search_from r (Some c) (pre ++ s)).
    rewrite (IH (Some c) H). apply orb_true_r.
Qed.

(** A match that starts right after [pre] is found by [search]. *)
Lemma search_intro r pre s :
  matches_at r (last_char pre, s) = true -> search r (pre ++ s) = true.
Proof.
  intro H. apply search_from_intro. exact H.
Qed.

Lemma last_app_nonempty (A : Type) (l1 l2 : list A) (d : A) :
  l2 <> [] -> last (l1 ++ l2) d = last l2 d.
Proof.
  intro H2. induction l1 as [|x l1 IH]; [reflexivity|].
  simpl. destruct (l1 ++ l2) eqn:E.
  - apply app_eq_nil in E. destruct E. contradiction.
  - exact IH.
Qed.

Lemma last_char_app pre w : w <> [] -> last_char (pre ++ w) = last_char w.
Proof.
  intro Hw. unfold last_char. rewrite map_app.
  apply last_app_nonempty. destruct w; [congruence | discriminate].
Qed.

End Matcher.

(** ** The classifier: amounts and the shape of the cascade *)

Section Classifier.

Lemma number_lt0 v : is_number v = true -> exists b, lt0 v = Ok b.
Proof.
  destruct v as [ | b | z | [ | n | m e] | s | vs | kvs]; simpl;
    intro H; try discriminate H; eexists; reflexivity.
Qed.

Lemma number_gt0 v : is_number v = true -> exists b, gt0 v = Ok b.
Proof.
  destruct v as [ | b | z | [ | n | m e] | s | vs | kvs]; simpl;
    intro H; try discriminate H; eexists; reflexivity.
Qed.

Lemma not_number_lt0 v : is_number v = false -> lt0 v = Raise TypeError.
Proof.
  destruct v as [ | b | z | f | s | vs | kvs]; simpl;
    intro H; try discriminate H; reflexivity.
Qed.

(** A credit is not a debit, and conversely. *)
Lemma lt0_gt0 v : lt0 v = Ok true -> gt0 v = Ok false.
Proof.
  destruct v as [ | b | z | [ | n | m e] | s | vs | kvs]; simpl;
    intro H; try discriminate H; injection H as H; f_equal.
  - apply Z.ltb_lt in H. apply Z.ltb_ge. lia.
  - subst n. reflexivity.
  - apply Z.ltb_lt in H. apply Z.ltb_ge. lia.
Qed.

Lemma gt0_lt0 v : gt0 v = Ok true -> lt0 v = Ok false.
Proof.
  destruct v as [ | b | z | [ | n | m e] | s | vs | kvs]; simpl;
    intro H; try discriminate H; injection H as H; f_equal.
  - apply Z.ltb_lt in H. apply Z.ltb_ge. lia.
  - destruct n; [discriminate H | reflexivity].
  - apply Z.ltb_lt in H. apply Z.ltb_ge. lia.
Qed.

Lemma eq0_signs v : eq0 v = true -> lt0 v = Ok false /\ gt0 v = Ok false.
Proof.
  destruct v as [ | b | z | [ | n | m e] | s | vs | kvs]; simpl;
    intro H; try discriminate H.
  - destruct b; [discriminate H | split; reflexivity].
  - apply Z.eqb_eq in H. subst z. split; reflexivity.
  - apply Z.eqb_eq in H. subst m. split; reflexivity.
Qed.

Lemma classify_signs t is_credit is_debit :
  lt0 (amount_of t) = Ok is_credit -> gt0 (amount_of t) = Ok is_debit ->
  map_transaction_category t
  = Ok (cascade is_credit is_debit (category_of t) (combined_text t)).
Proof.
  intros Hc Hd. unfold map_transaction_category. rewrite Hc, Hd. reflexivity.
Qed.

Lemma classify_credit t :
  lt0 (amount_of t) = Ok true ->
  map_transaction_category t
  = Ok (cascade true false (category_of t) (combined_text t)).
Proof.
  intro H. apply classify_signs; [exact H | apply lt0_gt0; exact H].
Qed.

Lemma classify_debit t :
  gt0 (amount_of t) = Ok true ->
  map_transaction_category t
  = Ok (cascade false true (category_of t) (combined_text t)).
Proof.
  intro H. apply classify_signs; [apply gt0_lt0; exact H | exact H].
Qed.

(** With neither sign, only the sign-independent part of the cascade is
    left. *)
Lemma cascade_no_sign category text :
  cascade false false category text
  = if search software_re text then py "Expenses"
    else plaid_fallback false category text.
Proof. reflexivity. Qed.

Lemma cascade_fallthrough is_credit is_debit category text :
  keyword_rule_fires is_credit is_debit text = false ->
  cascade is_credit is_debit category text = plaid_fallback is_debit category text.
Proof.
  unfold keyword_rule_fires, cascade. intro H.
  repeat (apply orb_false_iff in H; destruct H as [H ?]).
  repeat match goal with
         | E : _ = false |- _ => rewrite E; clear E
         end.
  reflexivity.
Qed.

(** *** The labels *)

Lemma str_eqb_eq a b : str_eqb a b = true -> a = b.
Proof.
  revert b. induction a as [|x a IH]; intros [|y b] H; simpl in H;
    try discriminate H; [reflexivity|].
  apply andb_true_iff in H. destruct H as [Hx Ha].
  apply Ascii.eqb_eq in Hx. subst y. f_equal. apply IH. exact Ha.
Qed.

Lemma lookup_in k d v : lookup k d = Some v -> In v (map snd d).
Proof.
  induction d as [|[k' v'] d IH]; simpl; intro H; [discriminate H|].
  destruct (str_eqb k k').
  - injection H as ->. left. reflexivity.
  - right. apply IH. exact H.
Qed.

Lemma first_broad_in category ms label :
  first_broad category ms = Some label -> In label (map fst ms).
Proof.
  induction ms as [|[l0 ps] ms IH]; simpl; intro H; [discriminate H|].
  destruct (existsb (startswith category) ps).
  - injection H as ->. left. reflexivity.
  - right. apply IH. exact H.
Qed.

Lemma plaid_map_labels : Forall (fun v => In v MCA_CATEGORIES) (map snd plaid_map).
Proof.
  unfold plaid_map. simpl map.
  repeat (apply Forall_cons; [in_enum|]). apply Forall_nil.
Qed.

Lemma broad_labels : Forall (fun v => In v MCA_CATEGORIES) (map fst broad_matchers).
Proof.
  unfold broad_matchers. simpl map.
  repeat (apply Forall_cons; [in_enum|]). apply Forall_nil.
Qed.

Lemma plaid_fallback_label is_debit category text :
  In (plaid_fallback is_debit category text) MCA_CATEGORIES.
Proof.
  unfold plaid_fallback.
  destruct (startswith category (py "loan_payments_") && search loan_vocabulary_re text);
    [in_enum|].
  destruct (lookup category plaid_map) as [label|] eqn:El.
  - apply lookup_in in El.
    exact (proj1 (Forall_forall _ _) plaid_map_labels _ El).
  - destruct (first_broad category broad_matchers) as [label|] eqn:Eb.
    + apply first_broad_in in Eb.
      exact (proj1 (Forall_forall _ _) broad_labels _ Eb).
    + destruct is_debit; in_enum.
Qed.

Lemma cascade_label is_credit is_debit category text :
  In (cascade is_credit is_debit category text) MCA_CATEGORIES.
Proof.
  unfold cascade.
  destruct (is_credit && search processor_re text); [in_enum|].
  destruct (is_credit && search youlend_re text).
  { destruct (search funding_re text); in_enum. }
  destruct (is_credit && search lender_re text); [in_enum|].
  destruct (is_debit && search repayment_re text); [in_enum|].
  destruct (search software_re text); [in_enum|].
  apply plaid_fallback_label.
Qed.

End Classifier.

(** ** The claims on the classifier *)

Section ClassifierClaims.

Local Arguments search : simpl never.

(** C1, as amended.  Whatever the record, a label the classifier returns
    is one of the eight of [MCA_CATEGORIES]; for every record whose amount
    is a number or absent the classifier does return a label, and only
    one; for every record whose amount is present and not a number it
    returns no label. *)
Theorem classify_total_in_enum (t : transaction) :
  (forall label, map_transaction_category t = Ok label -> In label MCA_CATEGORIES)
  /\ (is_number (amount_of t) = true ->
      exists label,
        map_transaction_category t = Ok label
        /\ In label MCA_CATEGORIES
        /\ forall label', map_transaction_category t = Ok label' -> label' = label)
  /\ (is_number (amount_of t) = false ->
      forall label, map_transaction_category t <> Ok label).
Proof.
  split; [|split].
  - intros label H. unfold map_transaction_category in H.
    destruct (lt0 (amount_of t)) as [c|e]; [|discriminate H].
    destruct (gt0 (amount_of t)) as [d|e]; [|discriminate H].
    simpl in H. injection H as <-. apply cascade_label.
  - intro Hn.
    destruct (number_lt0 _ Hn) as [c Hc].
    destruct (number_gt0 _ Hn) as [d Hd].
    exists (cascade c d (category_of t) (combined_text t)).
    rewrite (classify_signs t _ _ Hc Hd).
    split; [reflexivity|]. split; [apply cascade_label|].
    intros label' H. injection H as H. symmetry. exact H.
  - intros Hn label H. unfold map_transaction_category in H.
    rewrite (not_number_lt0 _ Hn) in H. discriminate H.
Qed.

Lemma classify_total_in_enum_witness :
  exists label,
    map_transaction_category (record "Stripe Payout" "" "" (PyInt (-120))) = Ok label
    /\ In label MCA_CATEGORIES
    /\ forall label',
         map_transaction_category (record "Stripe Payout" "" "" (PyInt (-120))) = Ok label'
         -> label' = label.
Proof.
  apply (proj1 (proj2 (classify_total_in_enum
                         (record "Stripe Payout" "" "" (PyInt (-120)))))).
  reflexivity.
Defined.

(** C1 fails as stated: a record whose amount is [None] (a JSON [null])
    gets no label, the classifier raises. *)
Lemma null_amount_gets_no_label :
  map_transaction_category (record "Card payment" "Tesco" "" PyNone)
  = Raise TypeError
  /\ forall label,
       map_transaction_category (record "Card payment" "Tesco" "" PyNone)
       <> Ok label.
Proof.
  split; [reflexivity|]. intros label H. discriminate H.
Qed.

(** C2, as amended.  A record without the [amount] key is classified with
    the amount 0, as neither credit nor debit, and a record whose amount
    is a number is given a label; a record whose amount is present and not
    a number (a string, [None], a list, a dict) makes the comparison
    [amount < 0] raise [TypeError]. *)
Theorem classify_amount_typing (t : transaction) :
  (amount t = None ->
   map_transaction_category t
   = Ok (cascade false false (category_of t) (combined_text t)))
  /\ (is_number (amount_of t) = true ->
      exists label, map_transaction_category t = Ok label)
  /\ (is_number (amount_of t) = false ->
      map_transaction_category t = Raise TypeError).
Proof.
  split; [|split].
  - intro H. apply classify_signs; unfold amount_of; rewrite H; reflexivity.
  - intro Hn.
    destruct (number_lt0 _ Hn) as [c Hc].
    destruct (number_gt0 _ Hn) as [d Hd].
    rewrite (classify_signs t _ _ Hc Hd). eexists. reflexivity.
  - intro Hn. unfold map_transaction_category.
    rewrite (not_number_lt0 _ Hn). reflexivity.
Qed.

Lemma classify_amount_typing_witness :
  map_transaction_category (record_without_amount "Card payment" "" "")
  = Ok (py "Uncategorised")
  /\ (exists label,
        map_transaction_category (record "Card payment" "" "" (PyInt 12)) = Ok label)
  /\ map_transaction_category (record "Card payment" "" "" (PyStr (py "12.50")))
     = Raise TypeError.
Proof.
  split; [|split].
  - rewrite (proj1 (classify_amount_typing
                      (record_without_amount "Card payment" "" "")) eq_refl).
    vm_compute. reflexivity.
  - apply (proj1 (proj2 (classify_amount_typing
                           (record "Card payment" "" "" (PyInt 12))))).
    reflexivity.
  - apply (proj2 (proj2 (classify_amount_typing
                           (record "Card payment" "" "" (PyStr (py "12.50")))))).
    reflexivity.
Defined.

(** C2 fails as stated: an amount given as a string is not treated as 0,
    the classifier raises. *)
Lemma string_amount_raises :
  map_transaction_category (record "Card payment" "" "" (PyStr (py "12.50")))
  = Raise TypeError
  /\ forall label,
       map_transaction_category (record "Card payment" "" "" (PyStr (py "12.50")))
       <> Ok label.
Proof.
  split; [reflexivity|]. intros label H. discriminate H.
Qed.

Lemma word_after_first prev post :
  word_after (prev, post) = word_char (first_char post).
Proof. destruct post; reflexivity. Qed.

Lemma search_processor_stripe_payout pre post :
  free_left pre \/ free_right post ->
  search processor_re (pre ++ py "stripe payout" ++ post) = true.
Proof.
  intros [Hl | Hr].
  - apply search_intro.
    apply matches_at_intro with (e := (Some "e"%char, py " payout" ++ post)).
    apply ends_wd.
    + unfold at_boundary, word_before. simpl fst. fold (word_char (last_char pre)).
      rewrite Hl. reflexivity.
    + apply ends_alts with (r := li "stripe"); [left; reflexivity|].
      exact (ends_lit_i (py "stripe") (last_char pre) (py " payout" ++ post)).
    + reflexivity.
  - replace (pre ++ py "stripe payout" ++ post)
      with ((pre ++ py "stripe ") ++ py "payout" ++ post)
      by (rewrite <- app_assoc; reflexivity).
    apply search_intro.
    rewrite last_char_app by discriminate.
    apply matches_at_intro with (e := (Some "t"%char, post)).
    apply ends_wd.
    + reflexivity.
    + apply ends_alts with (r := li "payout"); [do 8 right; left; reflexivity|].
      exact (ends_lit_i (py "payout") (last_char (py "stripe ")) post).
    + unfold at_boundary. rewrite word_after_first. rewrite Hr. reflexivity.
Qed.

(** C3, as amended.  A credit whose combined lower-cased text contains
    "stripe payout" with no word character immediately before it, or none
    immediately after it, is classified Income, whatever the external
    category. *)
Theorem stripe_payout_credit_is_income (t : transaction) (pre post : str) :
  lt0 (amount_of t) = Ok true ->
  combined_text t = pre ++ py "stripe payout" ++ post ->
  free_left pre \/ free_right post ->
  map_transaction_category t = Ok (py "Income").
Proof.
  intros Hc Ht Hfree. rewrite (classify_credit t Hc). unfold cascade.
  rewrite Ht. rewrite (search_processor_stripe_payout pre post Hfree).
  reflexivity.
Qed.

Lemma stripe_payout_credit_is_income_witness :
  map_transaction_category
    (record "STRIPE PAYOUT 8841" "Stripe" "loan_payments_car_payment" (PyInt (-250)))
  = Ok (py "Income").
Proof.
  apply (stripe_payout_credit_is_income
           (record "STRIPE PAYOUT 8841" "Stripe" "loan_payments_car_payment"
                   (PyInt (-250)))
           [] (py " 8841 stripe")).
  - reflexivity.
  - reflexivity.
  - left. reflexivity.
Defined.

(** C3 fails as stated: "stripe payout" glued to word characters on both
    sides is not a payment-processor match, and the credit is left
    Uncategorised. *)
Lemma glued_stripe_payout_not_income :
  lt0 (amount_of (record "mystripe payouts" "" "" (PyInt (-250)))) = Ok true
  /\ combined_text (record "mystripe payouts" "" "" (PyInt (-250)))
     = py "my" ++ py "stripe payout" ++ py "s "
  /\ map_transaction_category (record "mystripe payouts" "" "" (PyInt (-250)))
     = Ok (py "Uncategorised").
Proof. vm_compute. repeat split. Qed.

Lemma iwoca_is_brand : In (wd (l "iwoca")) lender_brands.
Proof. left. reflexivity. Qed.

Lemma matches_iwoca pre post :
  free_left pre -> free_right post ->
  matches_at (wd (l "iwoca")) (last_char pre, py "iwoca" ++ post) = true.
Proof.
  intros Hl Hr.
  apply matches_at_intro with (e := (Some "a"%char, post)).
  apply ends_wd.
  - unfold at_boundary, word_before. simpl fst. fold (word_char (last_char pre)).
    rewrite Hl. reflexivity.
  - exact (ends_lit (py "iwoca") (last_char pre) post).
  - unfold at_boundary. rewrite word_after_first. rewrite Hr. reflexivity.
Qed.

Lemma matches_at_alts rs r st :
  In r rs -> matches_at r st = true -> matches_at (alts rs) st = true.
Proof.
  unfold matches_at at 1. intros Hin H.
  destruct (ends r st) as [|e es] eqn:E; [discriminate H|].
  apply matches_at_intro with (e := e).
  apply ends_alts with (r := r); [exact Hin|].
  rewrite E. left. reflexivity.
Qed.

Lemma search_lender_iwoca pre post :
  free_left pre -> free_right post ->
  search lender_re (pre ++ py "iwoca" ++ post) = true.
Proof.
  intros Hl Hr. apply search_intro. unfold lender_re.
  apply matches_at_alts with (r := wd (l "iwoca")).
  - apply in_or_app. left. exact iwoca_is_brand.
  - apply matches_iwoca; assumption.
Qed.

Lemma search_repayment_iwoca pre post :
  free_left pre -> free_right post ->
  search repayment_re (pre ++ py "iwoca" ++ post) = true.
Proof.
  intros Hl Hr. apply search_intro. unfold repayment_re.
  apply matches_at_alts with (r := wd (l "iwoca")).
  - apply in_or_app. left. exact iwoca_is_brand.
  - apply matches_iwoca; assumption.
Qed.

(** C4. When the combined text contains the standalone word "iwoca" and
    no payment-processor keyword, no you-lend pattern and no funding
    token, a credit is classified Loans and a debit Debt Repayments. *)
Theorem iwoca_loans_or_repayment (t : transaction) (pre post : str) :
  combined_text t = pre ++ py "iwoca" ++ post ->
  free_left pre -> free_right post ->
  search processor_re (combined_text t) = false ->
  search youlend_re (combined_text t) = false ->
  search funding_re (combined_text t) = false ->
  (lt0 (amount_of t) = Ok true ->
   map_transaction_category t = Ok (py "Loans"))
  /\ (gt0 (amount_of t) = Ok true ->
      map_transaction_category t = Ok (py "Debt Repayments")).
Proof.
  intros Ht Hl Hr Hp Hy _. split; intro Hs.
  - rewrite (classify_credit t Hs). unfold cascade.
    rewrite Hp, Hy. rewrite Ht.
    rewrite (search_lender_iwoca pre post Hl Hr). reflexivity.
  - rewrite (classify_debit t Hs). unfold cascade.
    rewrite Ht. rewrite (search_repayment_iwoca pre post Hl Hr). reflexivity.
Qed.

Lemma iwoca_loans_or_repayment_witness :
  map_transaction_category (record "IWOCA LTD" "" "" (PyInt (-5000)))
  = Ok (py "Loans")
  /\ map_transaction_category (record "IWOCA LTD" "" "" (PyInt 5000))
     = Ok (py "Debt Repayments").
Proof.
  split.
  - apply (proj1 (iwoca_loans_or_repayment
                    (record "IWOCA LTD" "" "" (PyInt (-5000))) [] (py " ltd ")
                    eq_refl eq_refl eq_refl eq_refl eq_refl eq_refl)).
    reflexivity.
  - apply (proj2 (iwoca_loans_or_repayment
                    (record "IWOCA LTD" "" "" (PyInt 5000)) [] (py " ltd ")
                    eq_refl eq_refl eq_refl eq_refl eq_refl eq_refl)).
    reflexivity.
Defined.

Lemma loan_prefix_unmapped category :
  startswith category (py "loan_payments_") = true ->
  lookup category plaid_map = None /\ first_broad category broad_matchers = None.
Proof.
  destruct category as [|x c]; [discriminate|].
  intro H.
  change (Ascii.eqb "l" x && startswith c (py "oan_payments_") = true) in H.
  apply andb_true_iff in H. destruct H as [Hx _].
  apply Ascii.eqb_eq in Hx. subst x. split; reflexivity.
Qed.

Lemma search_vocabulary_repay pre post :
  search loan_vocabulary_re (pre ++ py "repay" ++ post) = true.
Proof.
  apply search_intro.
  apply matches_at_alts with (r := li "repay"); [do 2 right; left; reflexivity|].
  apply matches_at_intro with (e := (Some "y"%char, post)).
  exact (ends_lit_i (py "repay") (last_char pre) post).
Qed.

(** C5. When the external category begins with "loan_payments_" and no
    keyword rule of steps 1 and 1.5 fires: a combined text with loan, debt
    or lender vocabulary ("repay", for one) gives Debt Repayments; a
    text with none of it has the hint ignored and goes on through the
    exact lookup and the broad prefixes, which both miss, to the default:
    Expenses for a debit, Uncategorised otherwise, and so not Debt
    Repayments. *)
Theorem loan_payment_hint_validated (t : transaction) (is_credit is_debit : bool) :
  lt0 (amount_of t) = Ok is_credit ->
  gt0 (amount_of t) = Ok is_debit ->
  startswith (category_of t) (py "loan_payments_") = true ->
  keyword_rule_fires is_credit is_debit (combined_text t) = false ->
  (search loan_vocabulary_re (combined_text t) = true ->
   map_transaction_category t = Ok (py "Debt Repayments"))
  /\ ((exists pre post, combined_text t = pre ++ py "repay" ++ post) ->
      map_transaction_category t = Ok (py "Debt Repayments"))
  /\ (search loan_vocabulary_re (combined_text t) = false ->
      lookup (category_of t) plaid_map = None
      /\ first_broad (category_of t) broad_matchers = None
      /\ map_transaction_category t
         = Ok (if is_debit then py "Expenses" else py "Uncategorised")
      /\ map_transaction_category t <> Ok (py "Debt Repayments")).
Proof.
  intros Hc Hd Hcat Hk.
  rewrite (classify_signs t _ _ Hc Hd).
  rewrite (cascade_fallthrough _ _ _ _ Hk).
  unfold plaid_fallback. rewrite Hcat.
  destruct (loan_prefix_unmapped _ Hcat) as [Hl Hb].
  split; [|split].
  - intro Hv. rewrite Hv. reflexivity.
  - intros (pre & post & Ht). rewrite Ht.
    rewrite search_vocabulary_repay. reflexivity.
  - intro Hv. rewrite Hv, Hl, Hb. simpl.
    repeat split. destruct is_debit; discriminate.
Qed.

Lemma loan_payment_hint_validated_witness :
  map_transaction_category
    (record "Repay J Smith" "" "LOAN_PAYMENTS_CAR_PAYMENT" (PyInt (-40)))
  = Ok (py "Debt Repayments")
  /\ map_transaction_category
       (record "Corner shop" "" "LOAN_PAYMENTS_CAR_PAYMENT" (PyInt 40))
     = Ok (py "Expenses").
Proof.
  split.
  - apply (proj1 (loan_payment_hint_validated
                    (record "Repay J Smith" "" "LOAN_PAYMENTS_CAR_PAYMENT" (PyInt (-40)))
                    true false eq_refl eq_refl eq_refl eq_refl)).
    reflexivity.
  - apply (proj2 (proj2 (loan_payment_hint_validated
                    (record "Corner shop" "" "LOAN_PAYMENTS_CAR_PAYMENT" (PyInt 40))
                    false true eq_refl eq_refl eq_refl eq_refl))).
    reflexivity.
Defined.

(** C6. With an amount of exactly 0 the record is neither credit nor
    debit, so no sign-gated rule fires and only the sign-independent steps
    are left; when the text has no business-software keyword and the
    category triggers neither the loan-payment prefix rule, nor the exact
    lookup, nor a broad prefix, the label is Uncategorised. *)
Theorem zero_amount_uncategorised (t : transaction) :
  eq0 (amount_of t) = true ->
  lt0 (amount_of t) = Ok false
  /\ gt0 (amount_of t) = Ok false
  /\ map_transaction_category t
     = Ok (if search software_re (combined_text t) then py "Expenses"
           else plaid_fallback false (category_of t) (combined_text t))
  /\ (search software_re (combined_text t) = false ->
      startswith (category_of t) (py "loan_payments_")
        && search loan_vocabulary_re (combined_text t) = false ->
      lookup (category_of t) plaid_map = None ->
      first_broad (category_of t) broad_matchers = None ->
      map_transaction_category t = Ok (py "Uncategorised")).
Proof.
  intro Hz. destruct (eq0_signs _ Hz) as [Hc Hd].
  split; [exact Hc|]. split; [exact Hd|].
  rewrite (classify_signs t _ _ Hc Hd). rewrite cascade_no_sign.
  split; [reflexivity|].
  intros Hs Hv Hl Hb. rewrite Hs. unfold plaid_fallback.
  rewrite Hv, Hl, Hb. reflexivity.
Qed.

Lemma zero_amount_uncategorised_witness :
  map_transaction_category (record "Stripe loan 0" "" "other" (PyInt 0))
  = Ok (py "Uncategorised").
Proof.
  apply (proj2 (proj2 (proj2 (zero_amount_uncategorised
           (record "Stripe loan 0" "" "other" (PyInt 0)) eq_refl))));
    reflexivity.
Defined.

Lemma search_processor_shopify pre post :
  free_left pre -> free_right post ->
  search processor_re (pre ++ py "shopify" ++ post) = true.
Proof.
  intros Hl Hr. apply search_intro.
  apply matches_at_intro with (e := (Some "y"%char, post)).
  apply ends_wd.
  - unfold at_boundary, word_before. simpl fst. fold (word_char (last_char pre)).
    rewrite Hl. reflexivity.
  - apply ends_alts with (r := li "shopify"); [do 5 right; left; reflexivity|].
    exact (ends_lit_i (py "shopify") (last_char pre) post).
  - unfold at_boundary. rewrite word_after_first. rewrite Hr. reflexivity.
Qed.

Lemma search_software_shopify pre post :
  search software_re (pre ++ py "shopify" ++ post) = true.
Proof.
  apply search_intro.
  apply matches_at_alts with (r := li "shopify"); [do 12 right; left; reflexivity|].
  apply matches_at_intro with (e := (Some "y"%char, post)).
  exact (ends_lit_i (py "shopify") (last_char pre) post).
Qed.

(** C10, as amended.  "shopify" is a keyword of the credit-only
    payment-processor rule, there between word boundaries, and of the
    sign-independent business-software rule, there anywhere in the text.
    A credit whose text contains "shopify" as a standalone word is Income,
    by the processor rule, which comes first; a debit whose text contains
    "shopify" and matches no lender brand and no repayment keyword is
    Expenses, by the business-software rule. *)
Theorem shopify_label_by_sign (t : transaction) (pre post : str) :
  combined_text t = pre ++ py "shopify" ++ post ->
  (lt0 (amount_of t) = Ok true -> free_left pre -> free_right post ->
   search processor_re (combined_text t) = true
   /\ map_transaction_category t = Ok (py "Income"))
  /\ (gt0 (amount_of t) = Ok true ->
      search repayment_re (combined_text t) = false ->
      map_transaction_category t = Ok (py "Expenses")).
Proof.
  intro Ht. split.
  - intros Hs Hl Hr.
    assert (Hp : search processor_re (combined_text t) = true)
      by (rewrite Ht; apply search_processor_shopify; assumption).
    split; [exact Hp|].
    rewrite (classify_credit t Hs). unfold cascade. rewrite Hp. reflexivity.
  - intros Hs Hrep.
    rewrite (classify_debit t Hs). unfold cascade. rewrite Hrep.
    rewrite Ht. rewrite search_software_shopify. reflexivity.
Qed.

Lemma shopify_label_by_sign_witness :
  map_transaction_category (record "SHOPIFY PAYMENTS" "" "" (PyInt (-310)))
  = Ok (py "Income")
  /\ map_transaction_category (record "SHOPIFY PAYMENTS" "" "" (PyInt 29))
     = Ok (py "Expenses").
Proof.
  split.
  - apply (proj1 (shopify_label_by_sign
                    (record "SHOPIFY PAYMENTS" "" "" (PyInt (-310)))
                    [] (py " payments ") eq_refl));
      reflexivity.
  - apply (proj2 (shopify_label_by_sign
                    (record "SHOPIFY PAYMENTS" "" "" (PyInt 29))
                    [] (py " payments ") eq_refl));
      reflexivity.
Defined.

(** C10 fails as stated: in "myshopify" the keyword is not at a word
    boundary, the processor rule does not fire, and the credit is labelled
    Expenses by the business-software rule. *)
Lemma glued_shopify_credit_is_expense :
  lt0 (amount_of (record "myshopify" "" "" (PyInt (-310)))) = Ok true
  /\ combined_text (record "myshopify" "" "" (PyInt (-310)))
     = py "my" ++ py "shopify" ++ py " "
  /\ search lender_re (combined_text (record "myshopify" "" "" (PyInt (-310)))) = false
  /\ search repayment_re (combined_text (record "myshopify" "" "" (PyInt (-310)))) = false
  /\ search processor_re (combined_text (record "myshopify" "" "" (PyInt (-310)))) = false
  /\ map_transaction_category (record "myshopify" "" "" (PyInt (-310)))
     = Ok (py "Expenses").
Proof. vm_compute. repeat split. Qed.

End ClassifierClaims.

(** ** The normalizer *)

Section Normalizer.

Lemma star_ends_shorter p prev s e :
  In e (star_ends p prev s) -> List.length (snd e) <= List.length s.
Proof.
  revert prev. induction s as [|c t IH]; intros prev H.
  - destruct H as [<- | []]. apply le_n.
  - simpl in H. destruct (p c).
    + apply in_app_or in H. destruct H as [H | [<- | []]].
      * apply IH in H. simpl. lia.
      * apply le_n.
    + destruct H as [<- | []]. apply le_n.
Qed.

Lemma ends_shorter r st e :
  In e (ends r st) ->
  List.length (snd e) + (if consumes r then 1 else 0) <= List.length (snd st).
Proof.
  revert st e. induction r as [ | p | a IHa b IHb | a IHa b IHb | p | ];
    intros st e H; simpl in H.
  - destruct H as [<- | []]. simpl. lia.
  - destruct st as [prev [|c t]]; simpl in H; [destruct H|].
    destruct (p c); [|destruct H]. destruct H as [<- | []]. simpl. lia.
  - apply in_flat_map in H. destruct H as (mid & Ha & Hb).
    apply IHa in Ha. apply IHb in Hb. simpl.
    destruct (consumes a), (consumes b); simpl; lia.
  - apply in_app_or in H. simpl.
    destruct H as [H | H]; [apply IHa in H | apply IHb in H];
      destruct (consumes a), (consumes b); simpl; lia.
  - apply star_ends_shorter in H. simpl. lia.
  - destruct (at_boundary st); [|destruct H].
    destruct H as [<- | []]. simpl. lia.
Qed.

(** Every pattern the normalizer gives to [re.sub] matches no empty
    string. *)
Lemma never_empty :
  Forall (fun r => consumes r = true)
         (remove_terms ++ [plus underscore_or_dash; plus is_space]).
Proof.
  unfold remove_terms. simpl app.
  repeat (apply Forall_cons; [reflexivity|]). apply Forall_nil.
Qed.

Lemma dropwhile_head p s :
  match dropwhile p s with
  | [] => True
  | c :: _ => p c = false
  end.
Proof.
  induction s as [|c t IH]; simpl; [exact I|].
  destruct (p c) eqn:E; [exact IH | exact E].
Qed.

(** A trimmed text that is not empty has a character that is no blank. *)
Lemma strip_has_nonblank a :
  strip a <> [] -> exists c, In c (strip a) /\ is_space c = false.
Proof.
  unfold strip, strip_set. intro H.
  pose proof (dropwhile_head is_space (rev (dropwhile is_space a))) as Hd.
  destruct (dropwhile is_space (rev (dropwhile is_space a))) as [|c d].
  - contradiction H. reflexivity.
  - exists c. split; [|exact Hd].
    apply in_rev. rewrite rev_involutive. left. reflexivity.
Qed.

Lemma split_from_nonempty s w :
  w <> [] \/ (exists c, In c s /\ is_space c = false) ->
  split_from w s <> [].
Proof.
  revert w. induction s as [|c t IH]; intros w H; simpl.
  - destruct H as [H | (c & [] & _)]. destruct w; [congruence | discriminate].
  - destruct (is_space c) eqn:E.
    + destruct w; [|discriminate].
      apply IH. right. destruct H as [H | (c' & [-> | Hin] & Hc')].
      * congruence.
      * congruence.
      * exists c'. split; assumption.
    + apply IH. left. destruct w; discriminate.
Qed.

Lemma split_from_words s w : Forall (fun x => x <> []) (split_from w s).
Proof.
  revert w. induction s as [|c t IH]; intro w; simpl.
  - destruct w; [apply Forall_nil|].
    apply Forall_cons; [discriminate | apply Forall_nil].
  - destruct (is_space c).
    + destruct w; [apply IH|].
      apply Forall_cons; [discriminate | apply IH].
    + apply IH.
Qed.

Lemma capitalize_words_nonempty s :
  (exists c, In c s /\ is_space c = false) -> capitalize_words s <> [].
Proof.
  intro H. unfold capitalize_words, split.
  pose proof (split_from_nonempty s [] (or_intror H)) as Hne.
  pose proof (split_from_words s []) as Hw.
  destruct (split_from [] s) as [|w ws]; [congruence|].
  inversion Hw as [|? ? Hw1 _]; subst.
  destruct w as [|c w]; [congruence|].
  simpl. destruct (map capitalize ws); discriminate.
Qed.

(** Blank input apart, the normalizer never returns the empty string. *)
Lemma clean_account_name_nonblank a :
  strip a <> [] -> clean_account_name (Some a) <> [].
Proof.
  intro H. unfold clean_account_name.
  destruct a as [|c a]; [contradiction H; reflexivity|].
  destruct (List.length (cleaned (strip (c :: a))) <? 2) eqn:E.
  - apply capitalize_words_nonempty. apply strip_has_nonblank. exact H.
  - apply Nat.ltb_ge in E. intro H0. rewrite H0 in E. simpl in E. lia.
Qed.

End Normalizer.

(** ** Idempotence of the normalizer *)

Section Idempotence.

Lemma star_ends_head p prev s :
  exists pr l, star_ends p prev s = (pr, dropwhile p s) :: l.
Proof.
  revert prev. induction s as [|c t IH]; intro prev; simpl.
  - eexists. eexists. reflexivity.
  - destruct (p c).
    + destruct (IH (Some c)) as (pr & l & E). rewrite E.
      eexists. eexists. reflexivity.
    + eexists. eexists. reflexivity.
Qed.

Lemma dropwhile_length p s :
  List.length (dropwhile p s) + run_length p s = List.length s.
Proof.
  induction s as [|c t IH]; simpl; [reflexivity|].
  destruct (p c); simpl; lia.
Qed.

Lemma sub_from_nil r repl k prev : sub_from r repl k prev [] = [].
Proof.
  destruct k; [|reflexivity].
  unfold sub_from.
  match goal with |- context [match ?x with _ => _ end] => destruct x as [|[? ?] ?] end;
    reflexivity.
Qed.

(** One step of [sub_from] outside a match. *)
Lemma sub_from_step r repl prev c t :
  sub_from r repl 0 prev (c :: t)
  = match ends r (prev, c :: t) with
    | (_, rest) :: _ =>
        match List.length (c :: t) - List.length rest with
        | S k => repl ++ sub_from r repl k (Some c) t
        | O => c :: sub_from r repl 0 (Some c) t
        end
    | [] => c :: sub_from r repl 0 (Some c) t
    end.
Proof.
  reflexivity.
Qed.

Lemma ends_plus_hit p prev c t :
  p c = true -> ends (plus p) (prev, c :: t) = star_ends p (Some c) t.
Proof.
  intro E. simpl. rewrite E. simpl. apply app_nil_r.
Qed.

Lemma ends_plus_miss p prev c t :
  p c = false -> ends (plus p) (prev, c :: t) = [].
Proof.
  intro E. simpl. rewrite E. reflexivity.
Qed.

(** [re.sub] of [p+] by a blank collapses the runs of [p]. *)
Lemma sub_plus_collapse p s :
  forall prev,
    sub_from (plus p) (py " ") (run_length p s) prev s = collapse_from p true s
    /\ sub_from (plus p) (py " ") 0 prev s = collapse_from p false s.
Proof.
  induction s as [|c t IH]; intro prev.
  - split; apply sub_from_nil.
  - destruct (p c) eqn:E.
    + split.
      * simpl. rewrite E. apply (IH (Some c)).
      * rewrite sub_from_step. rewrite (ends_plus_hit p prev c t E).
        destruct (star_ends_head p (Some c) t) as (pr & l & Eh). rewrite Eh.
        pose proof (dropwhile_length p t) as Hl.
        replace (List.length (c :: t) - List.length (dropwhile p t))
          with (S (run_length p t))
          by (change (List.length (c :: t)) with (S (List.length t)); lia).
        simpl collapse_from. rewrite E.
        change (py " " ++ ?x) with (" "%char :: x). f_equal. apply (IH (Some c)).
    + assert (H0 : sub_from (plus p) (py " ") 0 prev (c :: t)
                   = collapse_from p false (c :: t)).
      { rewrite sub_from_step. rewrite (ends_plus_miss p prev c t E).
        simpl. rewrite E. f_equal. apply (IH (Some c)). }
      split; [|exact H0].
      simpl run_length. rewrite E. rewrite H0. simpl. rewrite E. reflexivity.
Qed.

Lemma sub_plus p s : sub (plus p) (py " ") s = collapse p s.
Proof. apply (sub_plus_collapse p s None). Qed.

(** *** Characters *)

Lemma is_space_upper c : is_space (upper c) = is_space c.
Proof. by_cases c. Qed.

Lemma is_space_lower c : is_space (lower c) = is_space c.
Proof. by_cases c. Qed.

Lemma punctuation_upper c : punctuation (upper c) = punctuation c.
Proof. by_cases c. Qed.

Lemma punctuation_lower c : punctuation (lower c) = punctuation c.
Proof. by_cases c. Qed.

Lemma underscore_or_dash_upper c : underscore_or_dash (upper c) = underscore_or_dash c.
Proof. by_cases c. Qed.

Lemma underscore_or_dash_lower c : underscore_or_dash (lower c) = underscore_or_dash c.
Proof. by_cases c. Qed.

Lemma upper_upper c : upper (upper c) = upper c.
Proof. by_cases c. Qed.

Lemma lower_lower c : lower (lower c) = lower c.
Proof. by_cases c. Qed.

Lemma lower_upper c : lower (upper c) = lower c.
Proof. by_cases c. Qed.

Lemma upper_lower c : upper (lower c) = upper c.
Proof. by_cases c. Qed.

Lemma is_word_lower c : is_word (lower c) = is_word c.
Proof. by_cases c. Qed.

(** *** Words *)

Lemma capitalize_snoc w c :
  capitalize (w ++ [c]) = capitalize w ++ [if is_nil w then upper c else lower c].
Proof.
  destruct w as [|d w]; [reflexivity|].
  simpl. rewrite map_app. reflexivity.
Qed.

Lemma capitalize_capitalize w : capitalize (capitalize w) = capitalize w.
Proof.
  destruct w as [|c t]; [reflexivity|]. simpl.
  rewrite upper_upper. f_equal. rewrite map_map.
  apply map_ext. intro a. apply lower_lower.
Qed.

Lemma capitalize_word w : word w -> word (capitalize w).
Proof.
  intros [Hne Hb]. destruct w as [|c t]; [congruence|].
  split; [discriminate|]. simpl.
  inversion Hb as [|? ? Hc Ht]; subst.
  apply Forall_cons.
  - rewrite is_space_upper. exact Hc.
  - apply Forall_map. eapply Forall_impl; [|exact Ht].
    intros a Ha. simpl. rewrite is_space_lower. exact Ha.
Qed.

Lemma split_from_blank_free s w :
  blank_free w -> Forall blank_free (split_from w s).
Proof.
  revert w. induction s as [|c t IH]; intros w Hw; simpl.
  - destruct w; [apply Forall_nil|].
    apply Forall_cons; [exact Hw | apply Forall_nil].
  - destruct (is_space c) eqn:E.
    + destruct w.
      * apply IH. apply Forall_nil.
      * apply Forall_cons; [exact Hw | apply IH; apply Forall_nil].
    + apply IH. apply Forall_app. split; [exact Hw|].
      apply Forall_cons; [exact E | apply Forall_nil].
Qed.

Lemma split_words s : Forall word (split s).
Proof.
  unfold split, word.
  pose proof (split_from_words s []) as H1.
  pose proof (split_from_blank_free s [] (Forall_nil _)) as H2.
  induction (split_from [] s) as [|w ws IH]; [apply Forall_nil|].
  inversion H1; inversion H2; subst.
  apply Forall_cons; [split; assumption | apply IH; assumption].
Qed.

Lemma split_from_app w0 w rest :
  blank_free w -> split_from w0 (w ++ rest) = split_from (w0 ++ w) rest.
Proof.
  revert w0. induction w as [|c w IH]; intros w0 Hw.
  - rewrite app_nil_r. reflexivity.
  - inversion Hw as [|? ? Hc Hw']; subst.
    simpl. rewrite Hc. rewrite (IH (w0 ++ [c]) Hw').
    rewrite <- app_assoc. reflexivity.
Qed.

Lemma join_cons2 sep w w' ws :
  join sep (w :: w' :: ws) = w ++ sep ++ join sep (w' :: ws).
Proof. reflexivity. Qed.

(** [split] undoes [join] on words. *)
Lemma split_join ws : Forall word ws -> split (join (py " ") ws) = ws.
Proof.
  unfold split. induction ws as [|w ws IH]; intro H; [reflexivity|].
  inversion H as [|? ? [Hne Hb] Hws]; subst.
  destruct ws as [|w' ws].
  - simpl join. rewrite <- (app_nil_r w) at 1.
    rewrite (split_from_app [] w [] Hb). simpl.
    destruct w; [congruence | reflexivity].
  - rewrite join_cons2. rewrite (split_from_app [] w _ Hb).
    change (py " " ++ join (py " ") (w' :: ws))
      with (" "%char :: join (py " ") (w' :: ws)).
    change ([] ++ w) with w.
    destruct w as [|c w]; [congruence|].
    change (split_from (c :: w) (" "%char :: join (py " ") (w' :: ws)))
      with ((c :: w) :: split_from [] (join (py " ") (w' :: ws))).
    f_equal. apply IH. exact Hws.
Qed.

Lemma capitalize_words_join s :
  capitalize_words s = join (py " ") (map capitalize (split s))
  /\ Forall word (map capitalize (split s)).
Proof.
  split; [reflexivity|].
  apply Forall_map. eapply Forall_impl; [|apply split_words].
  intros w Hw. apply capitalize_word. exact Hw.
Qed.

(** Capitalizing the words twice is capitalizing them once. *)
Lemma capitalize_words_twice s :
  capitalize_words (capitalize_words s) = capitalize_words s.
Proof.
  destruct (capitalize_words_join s) as [E Hw].
  unfold capitalize_words at 1. rewrite E. rewrite (split_join _ Hw).
  rewrite map_map. f_equal. apply map_ext. intro w. apply capitalize_capitalize.
Qed.

(** *** First and last characters *)

Lemma first_char_app a b :
  first_char (a ++ b) = match first_char a with Some x => Some x | None => first_char b end.
Proof. destruct a; reflexivity. Qed.

Lemma last_char_cons c t :
  last_char (c :: t) = match last_char t with Some x => Some x | None => Some c end.
Proof.
  unfold last_char. revert c. induction t as [|d t IH]; intro c; [reflexivity|].
  change (last (map Some (c :: d :: t)) None) with (last (map Some (d :: t)) None).
  rewrite (IH d). destruct (last (map Some t) None); reflexivity.
Qed.

Lemma first_char_rev s : first_char (rev s) = last_char s.
Proof.
  induction s as [|c t IH]; [reflexivity|].
  simpl rev. rewrite first_char_app, IH, last_char_cons. reflexivity.
Qed.

Lemma last_char_none s : last_char s = None -> s = [].
Proof.
  destruct s as [|c t]; [reflexivity|]. rewrite last_char_cons.
  destruct (last_char t); discriminate.
Qed.

Lemma last_char_Forall (Q : ascii -> Prop) s c :
  Forall Q s -> last_char s = Some c -> Q c.
Proof.
  induction 1 as [|x t Hx Ht IH]; [discriminate|].
  rewrite last_char_cons. destruct (last_char t) as [y|].
  - intro E. apply IH. exact E.
  - intro E. injection E as <-. exact Hx.
Qed.

Lemma dropwhile_id p s : avoids p (first_char s) -> dropwhile p s = s.
Proof.
  destruct s as [|c t]; [reflexivity|]. simpl. intro H. rewrite H. reflexivity.
Qed.

Lemma strip_set_id p s :
  avoids p (first_char s) -> avoids p (last_char s) -> strip_set p s = s.
Proof.
  intros Hf Hl. unfold strip_set. rewrite (dropwhile_id p s Hf).
  rewrite dropwhile_id; [apply rev_involutive|].
  rewrite first_char_rev. exact Hl.
Qed.

Lemma dropwhile_suffix p s : exists a, s = a ++ dropwhile p s.
Proof.
  induction s as [|c t [a IH]]; [exists []; reflexivity|].
  simpl. destruct (p c).
  - exists (c :: a). simpl. f_equal. exact IH.
  - exists []. reflexivity.
Qed.

(** What [strip_set] leaves starts and ends outside the class. *)
Lemma strip_set_ends p s :
  avoids p (first_char (strip_set p s)) /\ avoids p (last_char (strip_set p s)).
Proof.
  unfold strip_set.
  pose proof (dropwhile_head p (rev (dropwhile p s))) as Hd.
  pose proof (dropwhile_head p s) as Hs.
  destruct (dropwhile_suffix p (rev (dropwhile p s))) as [a Ea].
  set (d := dropwhile p (rev (dropwhile p s))) in *.
  split.
  - assert (E : dropwhile p s = rev d ++ rev a).
    { rewrite <- (rev_involutive (dropwhile p s)). rewrite Ea.
      apply rev_app_distr. }
    destruct (rev d) as [|x r] eqn:Er; [exact I|].
    rewrite E in Hs. simpl in Hs. exact Hs.
  - rewrite <- first_char_rev. rewrite rev_involutive.
    destruct d; [exact I | exact Hd].
Qed.

Lemma first_char_join sep w ws :
  w <> [] -> first_char (join sep (w :: ws)) = first_char w.
Proof.
  intro H. destruct w as [|c w]; [congruence|]. destruct ws; reflexivity.
Qed.

Lemma join_nonempty sep w ws : w <> [] -> join sep (w :: ws) <> [].
Proof.
  intro H. destruct w as [|c w]; [congruence|]. destruct ws; discriminate.
Qed.

Lemma last_char_join w ws :
  Forall word (w :: ws) ->
  last_char (join (py " ") (w :: ws)) = last_char (last (w :: ws) []).
Proof.
  revert w. induction ws as [|w' ws IH]; intros w H; [reflexivity|].
  inversion H as [|? ? Hw Hws]; subst.
  inversion Hws as [|? ? Hw' _]; subst.
  rewrite join_cons2.
  rewrite last_char_app.
  - rewrite last_char_app by (apply join_nonempty; apply Hw').
    rewrite (IH w' Hws). reflexivity.
  - discriminate.
Qed.

Lemma last_char_join_snoc ws w :
  Forall word (ws ++ [w]) -> last_char (join (py " ") (ws ++ [w])) = last_char w.
Proof.
  intro H. destruct (ws ++ [w]) as [|w1 rest] eqn:E.
  - destruct ws; discriminate E.
  - rewrite (last_char_join w1 rest H). rewrite <- E. rewrite last_last.
    reflexivity.
Qed.

Lemma word_first w : word w -> avoids is_space (first_char w).
Proof.
  intros [Hne Hb]. destruct w; [congruence|].
  inversion Hb; subst. assumption.
Qed.

Lemma word_last w : word w -> avoids is_space (last_char w).
Proof.
  intros [Hne Hb]. destruct (last_char w) as [c|] eqn:E; [|exact I].
  exact (last_char_Forall (fun c => is_space c = false) w c Hb E).
Qed.

Lemma Forall_last_cons (A : Type) (Q : A -> Prop) (x : A) (l : list A) (d : A) :
  Forall Q (x :: l) -> Q (last (x :: l) d).
Proof.
  revert x. induction l as [|y l IH]; intros x H.
  - inversion H; subst. assumption.
  - inversion H; subst. change (last (x :: y :: l) d) with (last (y :: l) d).
    apply IH. assumption.
Qed.

(** A text made of words joined by one blank is already trimmed. *)
Lemma strip_join ws : Forall word ws -> strip (join (py " ") ws) = join (py " ") ws.
Proof.
  intro H. destruct ws as [|w ws]; [reflexivity|].
  inversion H as [|? ? Hw Hws]; subst.
  apply strip_set_id.
  - rewrite first_char_join by apply Hw. apply word_first. exact Hw.
  - rewrite (last_char_join w ws H). apply word_last.
    destruct ws as [|w' ws]; [exact Hw|].
    change (last (w :: w' :: ws) []) with (last (w' :: ws) []).
    apply Forall_last_cons. exact Hws.
Qed.

(** *** Collapsing runs *)

Lemma collapse_from_id p b s :
  Forall (fun c => p c = false) s -> collapse_from p b s = s.
Proof.
  intro H. revert b. induction H as [|c t Hc Ht IH]; intro b; [reflexivity|].
  simpl. rewrite Hc. f_equal. apply IH.
Qed.

Lemma collapse_from_app p w rest :
  Forall (fun c => p c = false) w ->
  collapse_from p false (w ++ rest) = w ++ collapse_from p false rest.
Proof.
  induction 1 as [|c t Hc Ht IH]; [reflexivity|].
  simpl. rewrite Hc. f_equal. exact IH.
Qed.

Lemma collapse_from_start p b s :
  avoids p (first_char s) -> collapse_from p b s = collapse_from p false s.
Proof.
  destruct s as [|c t]; [reflexivity|]. simpl. intro H. rewrite H. reflexivity.
Qed.

Lemma collapse_join ws :
  Forall word ws -> collapse is_space (join (py " ") ws) = join (py " ") ws.
Proof.
  unfold collapse. induction ws as [|w ws IH]; intro H; [reflexivity|].
  inversion H as [|? ? [Hne Hb] Hws]; subst.
  destruct ws as [|w' ws].
  - simpl join. apply collapse_from_id. exact Hb.
  - rewrite join_cons2. rewrite (collapse_from_app is_space w _ Hb). f_equal.
    change (py " " ++ join (py " ") (w' :: ws))
      with (" "%char :: join (py " ") (w' :: ws)).
    change (collapse_from is_space false (" "%char :: join (py " ") (w' :: ws)))
      with (" "%char :: collapse_from is_space true (join (py " ") (w' :: ws))).
    f_equal. rewrite collapse_from_start.
    + apply IH. exact Hws.
    + inversion Hws as [|? ? Hw' _]; subst.
      rewrite first_char_join by apply Hw'. apply word_first. exact Hw'.
Qed.

(** *** Substitution where nothing matches *)

Lemma sub_from_miss r repl prev c t :
  matches_at r (prev, c :: t) = false ->
  sub_from r repl 0 prev (c :: t) = c :: sub_from r repl 0 (Some c) t.
Proof.
  intro H. rewrite sub_from_step. unfold matches_at in H.
  destruct (ends r (prev, c :: t)); [reflexivity | discriminate H].
Qed.

Lemma sub_from_no_match r repl s :
  forall prev, search_from r prev s = false -> sub_from r repl 0 prev s = s.
Proof.
  induction s as [|c t IH]; intros prev H; [apply sub_from_nil|].
  change (matches_at r (prev, c :: t) || search_from r (Some c) t = false) in H.
  apply orb_false_iff in H. destruct H as [H1 H2].
  rewrite (sub_from_miss r repl prev c t H1). f_equal. apply IH. exact H2.
Qed.

Lemma sub_no_match r repl s : search r s = false -> sub r repl s = s.
Proof. apply sub_from_no_match. Qed.

Lemma remove_all_no_match terms s :
  existsb (fun term => search term s) terms = false -> remove_all terms s = s.
Proof.
  unfold remove_all. induction terms as [|r rs IH]; intro H; [reflexivity|].
  simpl in H. apply orb_false_iff in H. destruct H as [H1 H2].
  simpl. rewrite (sub_no_match r [] s H1). apply IH. exact H2.
Qed.

Lemma cleaned_steps name : cleaned name = tidy_up (remove_all remove_terms name).
Proof. reflexivity. Qed.

(** *** Properties carried along the pipeline *)

Section Carried.

Variable Q : ascii -> Prop.
Hypothesis Q_blank : Q " "%char.
Hypothesis Q_upper : forall c, Q c -> Q (upper c).
Hypothesis Q_lower : forall c, Q c -> Q (lower c).

Lemma collapse_from_Forall p b s : Forall Q s -> Forall Q (collapse_from p b s).
Proof.
  intro H. revert b. induction H as [|c t Hc Ht IH]; intro b; [apply Forall_nil|].
  simpl. destruct (p c).
  - destruct b; [apply IH | apply Forall_cons; [exact Q_blank | apply IH]].
  - apply Forall_cons; [exact Hc | apply IH].
Qed.

Lemma dropwhile_Forall p s : Forall Q s -> Forall Q (dropwhile p s).
Proof.
  induction 1 as [|c t Hc Ht IH]; [apply Forall_nil|].
  simpl. destruct (p c); [exact IH | apply Forall_cons; assumption].
Qed.

Lemma strip_set_Forall p s : Forall Q s -> Forall Q (strip_set p s).
Proof.
  intro H. unfold strip_set. apply Forall_rev. apply dropwhile_Forall.
  apply Forall_rev. apply dropwhile_Forall. exact H.
Qed.

Lemma split_from_Forall s w :
  Forall Q w -> Forall Q s -> Forall (Forall Q) (split_from w s).
Proof.
  intros Hw Hs. revert w Hw. induction Hs as [|c t Hc Ht IH]; intros w Hw; simpl.
  - destruct w; [apply Forall_nil|].
    apply Forall_cons; [exact Hw | apply Forall_nil].
  - destruct (is_space c).
    + destruct w.
      * apply IH. apply Forall_nil.
      * apply Forall_cons; [exact Hw | apply IH; apply Forall_nil].
    + apply IH. apply Forall_app. split; [exact Hw|].
      apply Forall_cons; [exact Hc | apply Forall_nil].
Qed.

Lemma capitalize_Forall w : Forall Q w -> Forall Q (capitalize w).
Proof.
  intro H. destruct H as [|c t Hc Ht]; [apply Forall_nil|].
  simpl. apply Forall_cons; [apply Q_upper; exact Hc|].
  apply Forall_map. eapply Forall_impl; [|exact Ht].
  intros a Ha. apply Q_lower. exact Ha.
Qed.

Lemma join_Forall ws : Forall (Forall Q) ws -> Forall Q (join (py " ") ws).
Proof.
  induction 1 as [|w ws Hw Hws IH]; [apply Forall_nil|].
  destruct ws as [|w' ws]; [exact Hw|].
  rewrite join_cons2. apply Forall_app. split; [exact Hw|].
  apply Forall_cons; [exact Q_blank | exact IH].
Qed.

Lemma capitalize_words_Forall s : Forall Q s -> Forall Q (capitalize_words s).
Proof.
  intro H. unfold capitalize_words. apply join_Forall.
  apply Forall_map.
  eapply Forall_impl; [|apply (split_from_Forall s [] (Forall_nil _) H)].
  intros w Hw. apply capitalize_Forall. exact Hw.
Qed.

End Carried.

Lemma collapse_from_outside p b s :
  p " "%char = false -> Forall (fun c => p c = false) (collapse_from p b s).
Proof.
  intro Hb. revert b. induction s as [|c t IH]; intro b; [apply Forall_nil|].
  simpl. destruct (p c) eqn:E.
  - destruct b; [apply IH | apply Forall_cons; [exact Hb | apply IH]].
  - apply Forall_cons; [exact E | apply IH].
Qed.

Lemma collapse_from_plain b s : Forall plain (collapse_from is_space b s).
Proof.
  revert b. induction s as [|c t IH]; intro b; [apply Forall_nil|].
  simpl. destruct (is_space c) eqn:E.
  - destruct b; [apply IH | apply Forall_cons; [intros _; reflexivity | apply IH]].
  - apply Forall_cons; [|apply IH]. intro H. congruence.
Qed.

(** The text handed to [capitalize_words] by [tidy_up]. *)
Lemma tidy_up_middle name :
  let z := strip_set punctuation
             (sub (plus is_space) (py " ")
                (sub (plus underscore_or_dash) (py " ") name)) in
  Forall (fun c => underscore_or_dash c = false) z
  /\ Forall plain z
  /\ avoids punctuation (first_char z)
  /\ avoids punctuation (last_char z).
Proof.
  intro z. subst z. rewrite !sub_plus. unfold collapse.
  split; [|split; [|apply strip_set_ends]].
  - apply strip_set_Forall. apply collapse_from_Forall; [reflexivity|].
    apply collapse_from_outside. reflexivity.
  - apply strip_set_Forall. apply collapse_from_plain.
Qed.

(** *** The ends of the capitalized text *)

Lemma split_from_acc s w :
  w <> [] -> exists w' ws, split_from w s = (w ++ w') :: ws.
Proof.
  revert w. induction s as [|c t IH]; intros w Hw; simpl.
  - exists [], []. rewrite app_nil_r. destruct w; [congruence | reflexivity].
  - destruct (is_space c).
    + exists [], (split_from [] t). rewrite app_nil_r.
      destruct w; [congruence | reflexivity].
    + destruct (IH (w ++ [c])) as (w' & ws & E).
      { destruct w; discriminate. }
      exists (c :: w'), ws. rewrite E. rewrite <- app_assoc. reflexivity.
Qed.

Lemma split_from_last s d w0 :
  is_space d = false ->
  exists ws w, split_from w0 (s ++ [d]) = ws ++ [w ++ [d]].
Proof.
  intro Hd. revert w0. induction s as [|c t IH]; intro w0; simpl.
  - rewrite Hd. exists [], w0. simpl.
    destruct (w0 ++ [d]) eqn:E; [|reflexivity].
    destruct w0; discriminate E.
  - destruct (is_space c).
    + destruct w0.
      * apply IH.
      * destruct (IH []) as (ws & w & E). exists ((a :: w0) :: ws), w.
        rewrite E. reflexivity.
    + apply IH.
Qed.

Lemma last_char_snoc s d : last_char (s ++ [d]) = Some d.
Proof. rewrite last_char_app by discriminate. reflexivity. Qed.

Lemma plain_not_punctuation c : plain c -> punctuation c = false -> is_space c = false.
Proof.
  intros Hp Hn. destruct (is_space c) eqn:E; [|reflexivity].
  rewrite (Hp E) in Hn. discriminate Hn.
Qed.

Lemma capitalize_words_first z :
  Forall plain z -> avoids punctuation (first_char z) ->
  avoids punctuation (first_char (capitalize_words z)).
Proof.
  intros Hp Hf. destruct z as [|c t]; [exact I|].
  simpl in Hf. inversion Hp as [|? ? Hc _]; subst.
  pose proof (plain_not_punctuation c Hc Hf) as Hs.
  unfold capitalize_words, split. simpl split_from. rewrite Hs.
  destruct (split_from_acc t [c]) as (w' & ws & E); [discriminate|].
  change ([] ++ [c]) with [c]. rewrite E. simpl map.
  rewrite first_char_join by discriminate.
  simpl. rewrite punctuation_upper. exact Hf.
Qed.

Lemma capitalize_words_last z :
  Forall plain z -> avoids punctuation (last_char z) ->
  avoids punctuation (last_char (capitalize_words z)).
Proof.
  intros Hp Hl.
  destruct z as [|c0 t0]; [exact I|].
  destruct (exists_last (l := c0 :: t0)) as (s & d & E); [discriminate|].
  rewrite E in *. clear E c0 t0.
  rewrite last_char_snoc in Hl. simpl in Hl.
  assert (Hd : plain d).
  { apply (proj1 (Forall_forall _ _) Hp). apply in_or_app.
    right. left. reflexivity. }
  pose proof (plain_not_punctuation d Hd Hl) as Hs.
  destruct (split_from_last s d [] Hs) as (ws & w & E).
  destruct (capitalize_words_join (s ++ [d])) as [Ey Hw].
  rewrite Ey. clear Ey. unfold split in *. rewrite E in *.
  rewrite map_app in *. simpl map in *.
  rewrite (last_char_join_snoc _ _ Hw).
  rewrite capitalize_snoc. rewrite last_char_snoc. simpl.
  destruct (is_nil w);
    [rewrite punctuation_upper | rewrite punctuation_lower]; exact Hl.
Qed.

(** *** The cleaned name is a fixed point *)

Lemma tidy_up_shape name :
  let y := tidy_up name in
  Forall (fun c => underscore_or_dash c = false) y
  /\ avoids punctuation (first_char y)
  /\ avoids punctuation (last_char y).
Proof.
  intro y. subst y. unfold tidy_up.
  destruct (tidy_up_middle name) as (Hu & Hp & Hf & Hl).
  split; [|split].
  - apply capitalize_words_Forall; try exact Hu.
    + reflexivity.
    + intros c Hc. rewrite underscore_or_dash_upper. exact Hc.
    + intros c Hc. rewrite underscore_or_dash_lower. exact Hc.
  - apply capitalize_words_first; assumption.
  - apply capitalize_words_last; assumption.
Qed.

Lemma capitalize_words_collapse s :
  collapse is_space (capitalize_words s) = capitalize_words s.
Proof.
  destruct (capitalize_words_join s) as [E Hw]. rewrite E.
  apply collapse_join. exact Hw.
Qed.

Lemma capitalize_words_strip s : strip (capitalize_words s) = capitalize_words s.
Proof.
  destruct (capitalize_words_join s) as [E Hw]. rewrite E.
  apply strip_join. exact Hw.
Qed.

(** Tidying up what has been tidied up changes nothing. *)
Lemma tidy_up_tidy_up name : tidy_up (tidy_up name) = tidy_up name.
Proof.
  destruct (tidy_up_shape name) as (Hu & Hf & Hl).
  set (y := tidy_up name) in *.
  unfold tidy_up at 1. rewrite !sub_plus.
  unfold collapse at 2. rewrite (collapse_from_id underscore_or_dash false y Hu).
  assert (Ey : y = capitalize_words
                     (strip_set punctuation
                        (sub (plus is_space) (py " ")
                           (sub (plus underscore_or_dash) (py " ") name))))
    by reflexivity.
  rewrite Ey at 1. rewrite capitalize_words_collapse. rewrite <- Ey.
  rewrite (strip_set_id punctuation y Hf Hl).
  rewrite Ey. apply capitalize_words_twice.
Qed.

(** The cleaned name, when it is kept, is a fixed point of [cleaned]. *)
Lemma cleaned_fixed name :
  has_boilerplate (cleaned name) = false ->
  cleaned (strip (cleaned name)) = cleaned name.
Proof.
  intro H. rewrite (cleaned_steps name) in *.
  set (x := remove_all remove_terms name) in *.
  assert (Es : strip (tidy_up x) = tidy_up x)
    by (unfold tidy_up; apply capitalize_words_strip).
  rewrite Es. rewrite cleaned_steps.
  rewrite (remove_all_no_match remove_terms _ H).
  apply tidy_up_tidy_up.
Qed.

(** *** Tokens *)

Lemma split_from_by w s : split_from w s = split_by is_space w s.
Proof.
  revert w. induction s as [|c t IH]; intro w; simpl; [reflexivity|].
  rewrite !IH. reflexivity.
Qed.

Lemma split_collapse p b w s :
  (b = true -> w = []) ->
  split_from w (collapse_from p b s) = split_by (fun c => p c || is_space c) w s.
Proof.
  revert b w. induction s as [|c t IH]; intros b w Hb; [reflexivity|].
  cbn [collapse_from split_by]. destruct (p c) eqn:Ep; cbn [orb].
  - destruct b.
    + rewrite (Hb eq_refl). apply IH. reflexivity.
    + change (split_from w (" "%char :: collapse_from p true t))
        with (match w with
              | [] => split_from [] (collapse_from p true t)
              | _ => w :: split_from [] (collapse_from p true t)
              end).
      rewrite (IH true [] (fun _ => eq_refl)). reflexivity.
  - cbn [split_from]. destruct (is_space c) eqn:Es.
    + rewrite (IH false []) by (intro H; discriminate H).
      reflexivity.
    + apply IH. intro H. discriminate H.
Qed.

Lemma split_by_sep q u w c t :
  q c = true ->
  split_by q u (w ++ c :: t) = split_by q u w ++ split_by q [] t.
Proof.
  intro Hc. revert u. induction w as [|d w IH]; intro u.
  - simpl. rewrite Hc. destruct u; reflexivity.
  - simpl. destruct (q d).
    + destruct u; rewrite (IH []); reflexivity.
    + apply IH.
Qed.

Lemma split_by_join_cons q u w ws :
  q " "%char = true ->
  split_by q u (join (py " ") (w :: ws))
  = split_by q u w ++ split_by q [] (join (py " ") ws).
Proof.
  intro Hq. destruct ws as [|w' ws].
  - simpl. rewrite app_nil_r. reflexivity.
  - rewrite join_cons2.
    change (py " " ++ join (py " ") (w' :: ws))
      with (" "%char :: join (py " ") (w' :: ws)).
    apply split_by_sep. exact Hq.
Qed.

(** Splitting at blanks and joining by one blank does not change the
    tokens, when the blanks are among the separators. *)
Lemma split_by_squeeze q m :
  (forall c, is_space c = true -> q c = true) ->
  forall w u, (w = [] -> u = []) ->
    split_by q u (join (py " ") (split_from w m)) = split_by q u (w ++ m).
Proof.
  intro Hq. induction m as [|c t IH]; intros w u Hw.
  - rewrite app_nil_r. simpl. destruct w; reflexivity.
  - simpl split_from. destruct (is_space c) eqn:Es.
    + destruct w as [|d w].
      * rewrite (Hw eq_refl). rewrite (IH [] [] (fun _ => eq_refl)).
        simpl. rewrite (Hq c Es). reflexivity.
      * rewrite split_by_join_cons by (apply Hq; reflexivity).
        rewrite (IH [] [] (fun _ => eq_refl)).
        rewrite (split_by_sep q u (d :: w) c t (Hq c Es)). reflexivity.
    + rewrite IH by (intro H; destruct w; discriminate H).
      rewrite <- app_assoc. reflexivity.
Qed.

(** *** Blanks at the ends *)

Lemma dropwhile_pad p lead s :
  Forall (fun c => p c = true) lead -> dropwhile p (lead ++ s) = dropwhile p s.
Proof.
  induction 1 as [|c t Hc Ht IH]; [reflexivity|].
  simpl. rewrite Hc. exact IH.
Qed.

Lemma dropwhile_all p s :
  Forall (fun c => p c = true) s -> dropwhile p s = [].
Proof.
  induction 1 as [|c t Hc Ht IH]; [reflexivity|]. simpl. rewrite Hc. exact IH.
Qed.

Lemma dropwhile_nil p s :
  dropwhile p s = [] -> Forall (fun c => p c = true) s.
Proof.
  induction s as [|c t IH]; intro H; [apply Forall_nil|].
  simpl in H. destruct (p c) eqn:E; [|discriminate H].
  apply Forall_cons; [exact E | apply IH; exact H].
Qed.

Lemma dropwhile_app_stop p s x r trail :
  dropwhile p s = x :: r -> dropwhile p (s ++ trail) = (x :: r) ++ trail.
Proof.
  induction s as [|c t IH]; intro H; [discriminate H|].
  simpl in *. destruct (p c); [apply IH; exact H|].
  injection H as <- <-. reflexivity.
Qed.

Lemma strip_set_pad p lead s trail :
  Forall (fun c => p c = true) lead -> Forall (fun c => p c = true) trail ->
  strip_set p (lead ++ s ++ trail) = strip_set p s.
Proof.
  intros Hl Ht. unfold strip_set. rewrite (dropwhile_pad p lead _ Hl).
  destruct (dropwhile p s) as [|x r] eqn:Ed.
  - rewrite (dropwhile_pad p s trail (dropwhile_nil p s Ed)).
    rewrite (dropwhile_all p trail Ht). reflexivity.
  - rewrite (dropwhile_app_stop p s x r trail Ed).
    rewrite rev_app_distr.
    rewrite (dropwhile_pad p (rev trail) _ (Forall_rev Ht)). reflexivity.
Qed.

Lemma collapse_split_acc s :
  (forall w, w <> [] ->
     exists trail, Forall (fun c => c = " "%char) trail
       /\ w ++ collapse_from is_space false s
          = join (py " ") (split_from w s) ++ trail)
  /\ (exists trail, Forall (fun c => c = " "%char) trail
       /\ collapse_from is_space true s
          = join (py " ") (split_from [] s) ++ trail).
Proof.
  induction s as [|c t [IH1 IH2]].
  - split.
    + intros w Hw. exists []. split; [apply Forall_nil|].
      simpl. destruct w; [congruence|]. rewrite !app_nil_r. reflexivity.
    + exists []. split; [apply Forall_nil | reflexivity].
  - cbn [collapse_from split_from]. destruct (is_space c) eqn:Es.
    + split.
      * intros w Hw. destruct IH2 as (trail & Ht & E). rewrite E.
        destruct w as [|d w]; [congruence|].
        destruct (split_from [] t) as [|w' L].
        -- exists (" "%char :: trail). split; [apply Forall_cons; [reflexivity | exact Ht]|].
           reflexivity.
        -- exists trail. split; [exact Ht|].
           rewrite join_cons2. rewrite <- !app_assoc. reflexivity.
      * exact IH2.
    + split.
      * intros w Hw. destruct (IH1 (w ++ [c])) as (trail & Ht & E).
        { destruct w; discriminate. }
        exists trail. split; [exact Ht|]. rewrite <- E.
        rewrite <- app_assoc. reflexivity.
      * destruct (IH1 [c]) as (trail & Ht & E); [discriminate|].
        exists trail. split; [exact Ht|]. exact E.
Qed.

(** Collapsing the blanks gives the words joined by one blank, up to a
    blank at either end. *)
Lemma collapse_split s :
  exists lead trail,
    Forall (fun c => c = " "%char) lead /\ Forall (fun c => c = " "%char) trail
    /\ collapse is_space s = lead ++ join (py " ") (split s) ++ trail.
Proof.
  unfold collapse, split. destruct s as [|c t].
  - exists [], []. repeat split; apply Forall_nil.
  - cbn [collapse_from split_from]. destruct (is_space c).
    + destruct (proj2 (collapse_split_acc t)) as (trail & Ht & E).
      exists [" "%char], trail. split; [|split; [exact Ht|]].
      * apply Forall_cons; [reflexivity | apply Forall_nil].
      * rewrite E. reflexivity.
    + destruct (proj1 (collapse_split_acc t) [c]) as (trail & Ht & E);
        [discriminate|].
      exists [], trail. split; [apply Forall_nil | split; [exact Ht | exact E]].
Qed.

Lemma blanks_punctuation l :
  Forall (fun c => c = " "%char) l -> Forall (fun c => punctuation c = true) l.
Proof.
  intro H. eapply Forall_impl; [|exact H]. intros c ->. reflexivity.
Qed.

(** [tidy_up] in terms of the tokens between separators. *)
Lemma tidy_up_tokens s :
  tidy_up s
  = capitalize_words
      (strip_set punctuation (join (py " ") (split_by separator [] s))).
Proof.
  unfold tidy_up. rewrite !sub_plus.
  destruct (collapse_split (collapse underscore_or_dash s))
    as (lead & trail & Hl & Ht & E).
  rewrite E.
  rewrite (strip_set_pad punctuation lead _ trail
             (blanks_punctuation lead Hl) (blanks_punctuation trail Ht)).
  unfold split, collapse.
  rewrite (split_collapse underscore_or_dash false [] s)
    by (intro H; discriminate H).
  reflexivity.
Qed.

(** [tidy_up] does not see how the blanks were run together. *)
Lemma tidy_up_squeeze m : tidy_up (join (py " ") (split m)) = tidy_up m.
Proof.
  rewrite !tidy_up_tokens. unfold split.
  rewrite (split_by_squeeze separator m) by
    (first [ intros c Hc; unfold separator; rewrite Hc; apply orb_true_r
           | intros _; reflexivity ]).
  reflexivity.
Qed.

(** *** Letter case *)

Lemma collapse_from_lower p b s :
  (forall c, p (lower c) = p c) ->
  collapse_from p b (str_lower s) = str_lower (collapse_from p b s).
Proof.
  intro Hp. revert b. induction s as [|c t IH]; intro b; [reflexivity|].
  simpl. rewrite Hp. destruct (p c).
  - destruct b; [apply IH|]. simpl. f_equal. apply IH.
  - simpl. f_equal. apply IH.
Qed.

Lemma dropwhile_lower p s :
  (forall c, p (lower c) = p c) ->
  dropwhile p (str_lower s) = str_lower (dropwhile p s).
Proof.
  intro Hp. induction s as [|c t IH]; [reflexivity|].
  simpl. rewrite Hp. destruct (p c); [exact IH | reflexivity].
Qed.

Lemma str_lower_rev s : rev (str_lower s) = str_lower (rev s).
Proof. unfold str_lower. symmetry. apply map_rev. Qed.

Lemma strip_set_lower p s :
  (forall c, p (lower c) = p c) ->
  strip_set p (str_lower s) = str_lower (strip_set p s).
Proof.
  intro Hp. unfold strip_set.
  rewrite (dropwhile_lower p s Hp). rewrite str_lower_rev.
  rewrite (dropwhile_lower p _ Hp). apply str_lower_rev.
Qed.

Lemma split_from_lower w s :
  split_from (str_lower w) (str_lower s) = map str_lower (split_from w s).
Proof.
  revert w. induction s as [|c t IH]; intro w.
  - destruct w; reflexivity.
  - change (str_lower (c :: t)) with (lower c :: str_lower t).
    cbn [split_from]. rewrite is_space_lower. destruct (is_space c).
    + pose proof (IH []) as IH0. change (str_lower []) with (@nil ascii) in IH0.
      destruct w; cbn [str_lower map]; rewrite IH0; reflexivity.
    + rewrite <- IH. unfold str_lower. rewrite map_app. reflexivity.
Qed.

Lemma capitalize_lower w : capitalize (str_lower w) = capitalize w.
Proof.
  destruct w as [|c t]; [reflexivity|]. unfold str_lower. simpl.
  rewrite upper_lower. f_equal. rewrite map_map.
  apply map_ext. intro a. apply lower_lower.
Qed.

Lemma str_lower_capitalize w : str_lower (capitalize w) = str_lower w.
Proof.
  destruct w as [|c t]; [reflexivity|]. unfold str_lower. simpl.
  rewrite lower_upper. f_equal. rewrite map_map.
  apply map_ext. intro a. apply lower_lower.
Qed.

Lemma capitalize_words_lower s : capitalize_words (str_lower s) = capitalize_words s.
Proof.
  unfold capitalize_words, split.
  change (split_from [] (str_lower s)) with (split_from (str_lower []) (str_lower s)).
  rewrite (split_from_lower [] s). rewrite map_map. f_equal.
  apply map_ext. intro w. apply capitalize_lower.
Qed.

Lemma str_lower_join ws :
  str_lower (join (py " ") ws) = join (py " ") (map str_lower ws).
Proof.
  induction ws as [|w ws IH]; [reflexivity|].
  destruct ws as [|w' ws]; [reflexivity|].
  rewrite join_cons2. unfold str_lower at 1. rewrite !map_app.
  fold (str_lower (join (py " ") (w' :: ws))). rewrite IH. reflexivity.
Qed.

Lemma tidy_up_lower s : tidy_up (str_lower s) = tidy_up s.
Proof.
  unfold tidy_up. rewrite !sub_plus. unfold collapse.
  rewrite (collapse_from_lower underscore_or_dash false s underscore_or_dash_lower).
  rewrite (collapse_from_lower is_space false _ is_space_lower).
  rewrite (strip_set_lower punctuation _ punctuation_lower).
  apply capitalize_words_lower.
Qed.

Lemma str_lower_capitalize_words n :
  str_lower (capitalize_words n) = join (py " ") (split (str_lower n)).
Proof.
  unfold capitalize_words. rewrite str_lower_join. rewrite map_map.
  unfold split.
  change (split_from [] (str_lower n)) with (split_from (str_lower []) (str_lower n)).
  rewrite (split_from_lower [] n). f_equal.
  apply map_ext. intro w. apply str_lower_capitalize.
Qed.

(** [tidy_up] of the capitalized words is [tidy_up] of the text. *)
Lemma tidy_up_capitalize_words n : tidy_up (capitalize_words n) = tidy_up n.
Proof.
  rewrite <- (tidy_up_lower (capitalize_words n)).
  rewrite str_lower_capitalize_words. rewrite tidy_up_squeeze.
  apply tidy_up_lower.
Qed.

(** *** Matching does not depend on the letter case *)

Lemma at_boundary_lower st : at_boundary (lower_pos st) = at_boundary st.
Proof.
  destruct st as [[c|] [|d s]]; unfold at_boundary, word_before, word_after;
    simpl; rewrite ?is_word_lower; reflexivity.
Qed.

Lemma star_ends_lower p prev s :
  (forall c, p (lower c) = p c) ->
  star_ends p (option_map lower prev) (str_lower s)
  = map lower_pos (star_ends p prev s).
Proof.
  intro Hp. revert prev. induction s as [|c t IH]; intro prev; [reflexivity|].
  change (str_lower (c :: t)) with (lower c :: str_lower t).
  cbn [star_ends]. rewrite Hp. destruct (p c); [|reflexivity].
  rewrite map_app. rewrite <- (IH (Some c)). reflexivity.
Qed.

Lemma ends_lower r :
  case_blind r -> forall st, ends r (lower_pos st) = map lower_pos (ends r st).
Proof.
  induction 1 as [ | p Hp | p Hp | | a b Ha IHa Hb IHb | a b Ha IHa Hb IHb ];
    intro st.
  - reflexivity.
  - destruct st as [prev [|c t]]; [reflexivity|].
    unfold lower_pos. simpl. rewrite Hp. destruct (p c); reflexivity.
  - destruct st as [prev s]. apply star_ends_lower. exact Hp.
  - simpl. rewrite at_boundary_lower. destruct (at_boundary st); reflexivity.
  - simpl. rewrite IHa. generalize (ends a st). intro l.
    induction l as [|m l IHl]; [reflexivity|].
    simpl. rewrite map_app. rewrite IHb. rewrite IHl. reflexivity.
  - simpl. rewrite IHa, IHb. rewrite map_app. reflexivity.
Qed.

Lemma matches_at_lower r st :
  case_blind r -> matches_at r (lower_pos st) = matches_at r st.
Proof.
  intro Hr. unfold matches_at. rewrite (ends_lower r Hr st).
  destruct (ends r st); reflexivity.
Qed.

Lemma search_from_lower r prev s :
  case_blind r ->
  search_from r (option_map lower prev) (str_lower s) = search_from r prev s.
Proof.
  intro Hr. revert prev. induction s as [|c t IH]; intro prev.
  - change (search_from r (option_map lower prev) (str_lower []))
      with (matches_at r (lower_pos (prev, [])) || false).
    rewrite (matches_at_lower r (prev, []) Hr). reflexivity.
  - change (search_from r (option_map lower prev) (str_lower (c :: t)))
      with (matches_at r (lower_pos (prev, c :: t))
            || search_from r (option_map lower (Some c)) (str_lower t)).
    rewrite (matches_at_lower r (prev, c :: t) Hr). rewrite (IH (Some c)).
    reflexivity.
Qed.

Lemma search_lower r s : case_blind r -> search r (str_lower s) = search r s.
Proof. intro Hr. apply (search_from_lower r None s Hr). Qed.

(** *** Matching does not depend on the length of the runs of blanks *)

Lemma is_space_not_word c : is_space c = true -> is_word c = false.
Proof.
  destruct c as [[] [] [] [] [] [] [] []]; intro H; try reflexivity; discriminate H.
Qed.

Lemma is_word_plain_blank c : is_word (plain_blank c) = is_word c.
Proof.
  unfold plain_blank. destruct (is_space c) eqn:E; [|reflexivity].
  rewrite (is_space_not_word c E). reflexivity.
Qed.

Lemma collapse_cons_solid c t :
  is_space c = false -> collapse is_space (c :: t) = c :: collapse is_space t.
Proof. intro H. unfold collapse. simpl. rewrite H. reflexivity. Qed.

Lemma collapse_cons_blank c t :
  is_space c = true ->
  collapse is_space (c :: t) = " "%char :: collapse_from is_space true t.
Proof. intro H. unfold collapse. simpl. rewrite H. reflexivity. Qed.

Lemma at_boundary_squeezed st : at_boundary (squeezed st) = at_boundary st.
Proof.
  destruct st as [prev s]. unfold at_boundary, squeezed. f_equal.
  - unfold word_before. simpl. destruct prev as [c|]; [|reflexivity].
    simpl. apply is_word_plain_blank.
  - unfold word_after. simpl. destruct s as [|c t]; [reflexivity|].
    destruct (is_space c) eqn:E.
    + rewrite (collapse_cons_blank c t E). rewrite (is_space_not_word c E).
      reflexivity.
    + rewrite (collapse_cons_solid c t E). reflexivity.
Qed.

Lemma star_ends_self p prev s : In (prev, s) (star_ends p prev s).
Proof.
  destruct s as [|c t]; [left; reflexivity|].
  simpl. destruct (p c); [|left; reflexivity].
  apply in_or_app. right. left. reflexivity.
Qed.

Lemma plain_blank_solid c : is_space c = false -> plain_blank c = c.
Proof. intro H. unfold plain_blank. rewrite H. reflexivity. Qed.

Lemma sync_solid c t : is_space c = false -> sync (Some c, t).
Proof. intro H. unfold sync, blank_before. simpl. rewrite H. reflexivity. Qed.

Lemma star_ends_squeezed p :
  (forall c, p c = true -> is_space c = false) ->
  forall s prev e,
    In e (star_ends p prev s) -> sync (prev, s) ->
    sync e
    /\ In (squeezed e)
          (star_ends p (option_map plain_blank prev) (collapse is_space s)).
Proof.
  intros Hp s. induction s as [|c t IH]; intros prev e He Hs.
  - destruct He as [<- | []]. split; [exact Hs|]. left. reflexivity.
  - simpl in He. destruct (p c) eqn:Epc.
    + pose proof (Hp c Epc) as Hc.
      apply in_app_or in He. destruct He as [He | [<- | []]].
      * destruct (IH (Some c) e He (sync_solid c t Hc)) as [H1 H2].
        split; [exact H1|].
        rewrite (collapse_cons_solid c t Hc). simpl. rewrite Epc.
        apply in_or_app. left.
        simpl in H2. rewrite (plain_blank_solid c Hc) in H2. exact H2.
      * split; [exact Hs|]. apply star_ends_self.
    + destruct He as [<- | []]. split; [exact Hs|]. apply star_ends_self.
Qed.

Lemma star_blank_ends s :
  forall pr mid,
    In mid (star_ends is_space pr s) -> blank_after mid = false ->
    (blank_after (pr, s) = false /\ mid = (pr, s))
    \/ (blank_after (pr, s) = true
        /\ (exists c', fst mid = Some c' /\ is_space c' = true)
        /\ snd mid = dropwhile is_space s).
Proof.
  induction s as [|c t IH]; intros pr mid Hm Hb.
  - destruct Hm as [<- | []]. left. split; reflexivity.
  - simpl in Hm. destruct (is_space c) eqn:E.
    + right. unfold blank_after at 1. simpl. rewrite E.
      split; [reflexivity|].
      apply in_app_or in Hm. destruct Hm as [Hm | [<- | []]].
      * destruct (IH (Some c) mid Hm Hb) as [[H1 ->] | (H1 & H2 & H3)].
        -- split; [exists c; split; [reflexivity | exact E]|].
           simpl. symmetry. apply dropwhile_id.
           unfold blank_after in H1. simpl in H1.
           destruct t; [exact I | exact H1].
        -- split; [exact H2 | exact H3].
      * unfold blank_after in Hb. simpl in Hb. congruence.
    + destruct Hm as [<- | []]. left. split; [|reflexivity].
      unfold blank_after. simpl. exact E.
Qed.

Lemma collapse_from_true_dropwhile t :
  collapse_from is_space true t = collapse is_space (dropwhile is_space t).
Proof.
  unfold collapse. induction t as [|c t IH]; [reflexivity|].
  simpl. destruct (is_space c) eqn:E; [exact IH|].
  simpl. rewrite E. reflexivity.
Qed.

Lemma blanks_star_squeezed st mid :
  sync st -> In mid (star_ends is_space (fst st) (snd st)) ->
  blank_after mid = false ->
  In (squeezed mid) (ends (Star is_space) (squeezed st)).
Proof.
  destruct st as [pr s]. intros Hs Hm Hb. simpl in Hm.
  change (ends (Star is_space) (squeezed (pr, s)))
    with (star_ends is_space (option_map plain_blank pr) (collapse is_space s)).
  destruct (star_blank_ends s pr mid Hm Hb) as [[H1 ->] | (H1 & (c' & H2 & H2') & H3)].
  - apply star_ends_self.
  - destruct s as [|c t]; [discriminate H1|].
    unfold blank_after in H1. simpl in H1.
    rewrite (collapse_cons_blank c t H1). simpl.
    apply in_or_app. left.
    destruct mid as [mp ms]. simpl in H2, H3. subst mp ms.
    unfold squeezed. simpl. unfold plain_blank at 1. rewrite H2'.
    rewrite H1. rewrite <- collapse_from_true_dropwhile.
    apply star_ends_self.
Qed.

Lemma in_ends_plus p prev c t e :
  In e (ends (plus p) (prev, c :: t))
  <-> p c = true /\ In e (star_ends p (Some c) t).
Proof.
  destruct (p c) eqn:E.
  - rewrite (ends_plus_hit p prev c t E). tauto.
  - rewrite (ends_plus_miss p prev c t E). simpl. split; [tauto|].
    intros [H _]. discriminate H.
Qed.

Lemma blanks_plus_squeezed st mid :
  sync st -> In mid (ends (plus is_space) st) ->
  blank_after mid = false ->
  In (squeezed mid) (ends (plus is_space) (squeezed st)).
Proof.
  destruct st as [pr [|c t]]; intros Hs Hm Hb; [destruct Hm|].
  apply (proj1 (in_ends_plus is_space pr c t mid)) in Hm.
  destruct Hm as [E Hm].
  unfold squeezed at 2. simpl fst. simpl snd.
  rewrite (collapse_cons_blank c t E).
  apply (proj2 (in_ends_plus is_space _ " "%char _ _)).
  split; [reflexivity|].
  destruct (star_blank_ends t (Some c) mid Hm Hb)
    as [[H1 ->] | (H1 & (c' & H2 & H2') & H3)].
  - unfold squeezed. simpl. unfold plain_blank. rewrite E.
    rewrite collapse_from_start.
    + apply star_ends_self.
    + unfold blank_after in H1. simpl in H1.
      destruct t; [exact I | exact H1].
  - destruct mid as [mp ms]. simpl in H2, H3. subst mp ms.
    unfold squeezed. simpl. unfold plain_blank. rewrite H2'.
    rewrite <- collapse_from_true_dropwhile. apply star_ends_self.
Qed.

(** A match of a robust pattern between positions outside the runs of
    blanks is a match in the text with collapsed blanks. *)
Lemma ends_squeezed r :
  robust r ->
  forall st e, sync st -> In e (ends r st) ->
    sync e /\ In (squeezed e) (ends r (squeezed st)).
Proof.
  induction 1 as [ | p Hp | p Hp | | a b Ha IHa Hb IHb
                 | b Hb IHb Hsolid | b Hb IHb Hsolid ];
    intros st e Hs He.
  - destruct He as [<- | []]. split; [exact Hs|]. left. reflexivity.
  - destruct st as [prev [|c t]]; simpl in He; [destruct He|].
    destruct (p c) eqn:Epc; [|destruct He]. destruct He as [<- | []].
    pose proof (Hp c Epc) as Hc.
    split; [apply (sync_solid c t Hc)|].
    unfold squeezed. simpl fst. simpl snd.
    rewrite (collapse_cons_solid c t Hc). simpl. rewrite Epc.
    rewrite (plain_blank_solid c Hc). left. reflexivity.
  - destruct st as [prev s]. apply (star_ends_squeezed p Hp s prev e He Hs).
  - simpl in He. destruct (at_boundary st) eqn:Eb; [|destruct He].
    destruct He as [<- | []]. split; [exact Hs|].
    simpl. rewrite at_boundary_squeezed, Eb. left. reflexivity.
  - simpl in He. apply in_flat_map in He. destruct He as (mid & Hm & He).
    destruct (IHa st mid Hs Hm) as [Hsm Hm'].
    destruct (IHb mid e Hsm He) as [Hse He'].
    split; [exact Hse|]. apply (ends_cat a b _ _ _ Hm' He').
  - simpl in He. apply in_flat_map in He. destruct He as (mid & Hm & He).
    destruct (Hsolid mid e He) as [_ Hb'].
    assert (Hsm : sync mid).
    { unfold sync. rewrite Hb'. apply andb_false_r. }
    destruct (IHb mid e Hsm He) as [Hse He'].
    split; [exact Hse|].
    apply (ends_cat (Star is_space) b _ (squeezed mid) _); [|exact He'].
    destruct st as [pr s]. apply (blanks_star_squeezed (pr, s) mid Hs Hm Hb').
  - change (ends (Cat (plus is_space) b) st)
      with (flat_map (ends b) (ends (plus is_space) st)) in He.
    apply in_flat_map in He. destruct He as (mid & Hm & He).
    destruct (Hsolid mid e He) as [_ Hb'].
    assert (Hsm : sync mid).
    { unfold sync. rewrite Hb'. apply andb_false_r. }
    destruct (IHb mid e Hsm He) as [Hse He'].
    split; [exact Hse|].
    apply (ends_cat (plus is_space) b _ (squeezed mid) _); [|exact He'].
    apply (blanks_plus_squeezed st mid Hs Hm Hb').
Qed.

Lemma search_from_elim r s :
  forall prev, search_from r prev s = true ->
    exists pre rest, s = pre ++ rest /\ matches_at r (after prev pre, rest) = true.
Proof.
  induction s as [|c t IH]; intros prev H.
  - exists [], []. split; [reflexivity|].
    simpl in H. rewrite orb_false_r in H. exact H.
  - change (matches_at r (prev, c :: t) || search_from r (Some c) t = true) in H.
    apply orb_true_iff in H. destruct H as [H | H].
    + exists [], (c :: t). split; [reflexivity | exact H].
    + destruct (IH (Some c) H) as (pre & rest & E & Hm).
      exists (c :: pre), rest. split; [simpl; f_equal; exact E|].
      rewrite after_cons. exact Hm.
Qed.

Lemma search_elim r s :
  search r s = true ->
  exists pre rest, s = pre ++ rest /\ matches_at r (last_char pre, rest) = true.
Proof. apply search_from_elim. Qed.

Lemma matches_at_elim r st : matches_at r st = true -> exists e, In e (ends r st).
Proof.
  unfold matches_at. destruct (ends r st) as [|e l]; [discriminate|].
  intros _. exists e. left. reflexivity.
Qed.

Lemma collapse_from_app_gen p pre rest :
  forall b,
    collapse_from p b (pre ++ rest)
    = collapse_from p b pre
      ++ collapse_from p (match last_char pre with Some c => p c | None => b end) rest.
Proof.
  induction pre as [|c t IH]; intro b; [reflexivity|].
  rewrite last_char_cons. simpl. destruct (p c) eqn:E.
  - destruct b; rewrite (IH true); destruct (last_char t); try rewrite E; reflexivity.
  - rewrite (IH false). destruct (last_char t); try rewrite E; reflexivity.
Qed.

Lemma collapse_app_sync pre rest :
  sync (last_char pre, rest) ->
  collapse is_space (pre ++ rest) = collapse is_space pre ++ collapse is_space rest.
Proof.
  unfold sync, blank_before, blank_after, collapse. simpl. intro H.
  rewrite collapse_from_app_gen. f_equal.
  destruct (last_char pre) as [c|]; [|reflexivity].
  destruct (is_space c); [|reflexivity].
  apply collapse_from_start. simpl in H. destruct rest; [exact I | exact H].
Qed.

Lemma last_char_collapse pre :
  last_char (collapse is_space pre) = option_map plain_blank (last_char pre).
Proof.
  unfold collapse. induction pre as [|d q IH] using rev_ind; [reflexivity|].
  rewrite collapse_from_app_gen. rewrite last_char_snoc.
  simpl. unfold plain_blank. destruct (is_space d) eqn:Ed.
  - destruct (last_char q) as [c|] eqn:Eq.
    + destruct (is_space c) eqn:Ec.
      * rewrite app_nil_r. rewrite IH. simpl. unfold plain_blank.
        rewrite Ec. reflexivity.
      * apply last_char_snoc.
    + apply last_char_snoc.
  - destruct (match last_char q with Some c => is_space c | None => false end);
      apply last_char_snoc.
Qed.

(** A robust pattern found in a text is found in the text with collapsed
    blanks. *)
Lemma search_collapse r m :
  robust r -> anchored r ->
  search r m = true -> search r (collapse is_space m) = true.
Proof.
  intros Hr Ha H.
  destruct (search_elim r m H) as (pre & rest & E & Hm).
  destruct (matches_at_elim r _ Hm) as [e He].
  pose proof (Ha _ e He) as Hs.
  destruct (ends_squeezed r Hr _ e Hs He) as [_ He'].
  subst m. rewrite (collapse_app_sync pre rest Hs).
  apply search_intro. rewrite last_char_collapse.
  apply (matches_at_intro r _ (squeezed e)). exact He'.
Qed.

(** *** The removable terms are robust, anchored and case-blind *)

Lemma is_word_solid c : is_word c = true -> is_space c = false.
Proof.
  destruct c as [[] [] [] [] [] [] [] []]; intro H; try reflexivity; discriminate H.
Qed.

Lemma is_digit_solid c : is_digit c = true -> is_space c = false.
Proof.
  destruct c as [[] [] [] [] [] [] [] []]; intro H; try reflexivity; discriminate H.
Qed.

Lemma is_digit_lower c : is_digit (lower c) = is_digit c.
Proof. by_cases c. Qed.

Lemma chr_i_lower a c : chr_i a (lower c) = chr_i a c.
Proof. unfold chr_i. rewrite lower_lower. reflexivity. Qed.

Lemma chr_i_solid a c : is_space (lower a) = false -> chr_i a c = true -> is_space c = false.
Proof.
  unfold chr_i. intros Ha H. apply Ascii.eqb_eq in H.
  rewrite <- is_space_lower. rewrite H. exact Ha.
Qed.

Lemma boundary_sync st : at_boundary st = true -> sync st.
Proof.
  destruct st as [prev s].
  unfold at_boundary, sync, word_before, word_after, blank_before, blank_after.
  simpl. intro H.
  destruct prev as [c|]; [|reflexivity].
  destruct (is_word c) eqn:Ec.
  - rewrite (is_word_solid c Ec). reflexivity.
  - destruct s as [|d s]; [discriminate H|]. simpl in H.
    rewrite (is_word_solid d H). apply andb_false_r.
Qed.

Lemma anchored_bnd r : anchored (Cat Bnd r).
Proof.
  intros st e He. simpl in He.
  destruct (at_boundary st) eqn:E; [|destruct He].
  apply boundary_sync. exact E.
Qed.

Lemma solid_sym p : (forall c, p c = true -> is_space c = false) -> solid (Sym p).
Proof.
  intros Hp [prev [|c t]] e He; simpl in He; [destruct He|].
  destruct (p c) eqn:E; [|destruct He].
  split; [discriminate|]. unfold blank_after. simpl. apply Hp. exact E.
Qed.

Lemma solid_cat a b : solid a -> solid (Cat a b).
Proof.
  intros Ha st e He. simpl in He. apply in_flat_map in He.
  destruct He as (mid & Hm & _). apply (Ha st mid Hm).
Qed.

Lemma anchored_solid r : solid r -> anchored r.
Proof.
  intros Hr st e He. destruct (Hr st e He) as [_ H].
  unfold sync. rewrite H. apply andb_false_r.
Qed.

Ltac solid_class :=
  first [ exact is_digit_solid
        | let c := fresh "c" in let H := fresh "H" in
          intros c H; refine (chr_i_solid _ c _ H); reflexivity ].

Ltac solid_pattern :=
  repeat first [ apply solid_cat | apply solid_sym; solid_class ].

Ltac robust_pattern :=
  repeat first
    [ apply robust_blanks_plus
    | apply robust_blanks_star
    | apply robust_cat
    | apply robust_bnd
    | apply robust_eps
    | apply robust_sym; solid_class
    | apply robust_star; solid_class
    | apply solid_cat
    | apply solid_sym; solid_class ].

Ltac anchored_pattern :=
  first [ apply anchored_bnd | apply anchored_solid; solid_pattern ].

Ltac blind_class :=
  first [ exact is_space_lower | exact is_digit_lower | apply chr_i_lower ].

Ltac blind_pattern :=
  repeat first
    [ apply case_blind_cat
    | apply case_blind_bnd
    | apply case_blind_eps
    | apply case_blind_sym; blind_class
    | apply case_blind_star; blind_class ].

Lemma remove_terms_sound :
  Forall (fun r => robust r /\ anchored r /\ case_blind r) remove_terms.
Proof.
  unfold remove_terms.
  cbv [wd seq li lit_i py list_ascii_of_string sp_plus sp_star at_least].
  repeat (apply Forall_cons;
          [ split; [robust_pattern | split; [anchored_pattern | blind_pattern]] | ]).
  apply Forall_nil.
Qed.

(** *** Trimmed texts *)

Lemma last_char_some s : s <> [] -> exists d, last_char s = Some d.
Proof.
  intro H. destruct (last_char s) as [d|] eqn:E; [exists d; reflexivity|].
  apply last_char_none in E. contradiction.
Qed.

(** On a trimmed text, collapsing the blanks is joining the words. *)
Lemma squeeze_collapse m :
  avoids is_space (first_char m) -> avoids is_space (last_char m) ->
  join (py " ") (split m) = collapse is_space m.
Proof.
  intros Hf Hl.
  destruct (collapse_split m) as (lead & trail & Hlead & Htrail & E).
  destruct m as [|c t]; [reflexivity|].
  simpl in Hf.
  assert (lead = []) as ->.
  { destruct lead as [|x lead]; [reflexivity|].
    inversion Hlead as [|? ? Hx _]; subst x.
    rewrite (collapse_cons_solid c t Hf) in E. injection E as E0 _.
    subst c. discriminate Hf. }
  assert (trail = []) as ->.
  { destruct trail as [|x trail]; [reflexivity|].
    apply (f_equal last_char) in E. rewrite last_char_collapse in E.
    destruct (last_char_some (c :: t)) as [d Ed]; [discriminate|].
    rewrite Ed in E, Hl. simpl in Hl, E.
    rewrite (plain_blank_solid d Hl) in E.
    rewrite last_char_app in E by discriminate.
    destruct (last_char_some (x :: trail)) as [y Ey]; [discriminate|].
    rewrite Ey in E. injection E as E.
    pose proof (last_char_Forall (fun c => c = " "%char) (x :: trail) y Htrail Ey) as Hy.
    rewrite E, Hy in Hl. discriminate Hl. }
  rewrite app_nil_r in E. simpl in E. symmetry. exact E.
Qed.

Lemma strip_lower a : str_lower (strip a) = strip (str_lower a).
Proof. symmetry. apply (strip_set_lower is_space a is_space_lower). Qed.

(** A removable term found in a trimmed name is found in its capitalized
    words too. *)
Lemma search_capitalize_words r a :
  robust r -> anchored r -> case_blind r ->
  search r (strip a) = true -> search r (capitalize_words (strip a)) = true.
Proof.
  intros Hr Ha Hb H.
  rewrite <- (search_lower r _ Hb). rewrite str_lower_capitalize_words.
  rewrite strip_lower.
  destruct (strip_set_ends is_space (str_lower a)) as [Hf Hl].
  rewrite (squeeze_collapse (strip (str_lower a)) Hf Hl).
  apply (search_collapse r _ Hr Ha).
  rewrite <- strip_lower. rewrite (search_lower r _ Hb). exact H.
Qed.

Lemma boilerplate_capitalize_words a :
  has_boilerplate (capitalize_words (strip a)) = false ->
  has_boilerplate (strip a) = false.
Proof.
  unfold has_boilerplate. pose proof remove_terms_sound as Hs.
  induction Hs as [|r rs (Hr & Ha & Hb) _ IH]; intro H; [reflexivity|].
  simpl in *. apply orb_false_iff in H. destruct H as [H1 H2].
  rewrite (IH H2). rewrite orb_false_r.
  destruct (search r (strip a)) eqn:E; [|reflexivity].
  rewrite (search_capitalize_words r a Hr Ha Hb E) in H1. discriminate H1.
Qed.

(** *** The theorem *)

Lemma clean_account_name_unfold (y : str) :
  y <> [] ->
  clean_account_name (Some y)
  = if List.length (cleaned (strip y)) <? 2
    then capitalize_words (strip y)
    else cleaned (strip y).
Proof. destruct y; [congruence | reflexivity]. Qed.

(** X21. For ASCII names, blank names apart, cleaning a cleaned name that
    holds no boilerplate changes nothing. *)
Theorem clean_account_name_idempotent (a : str) :
  ascii_only a ->
  strip a <> [] ->
  has_boilerplate (clean_account_name (Some a)) = false ->
  clean_account_name (Some (clean_account_name (Some a)))
  = clean_account_name (Some a).
Proof.
  intros _ Hn.
  pose proof (clean_account_name_nonblank a Hn) as Hy.
  assert (Ha : a <> []) by (intro E; subst a; apply Hn; reflexivity).
  revert Hy. rewrite (clean_account_name_unfold a Ha).
  set (n := strip a) in *.
  destruct (List.length (cleaned n) <? 2) eqn:E; intros Hy H.
  - rewrite (clean_account_name_unfold _ Hy).
    rewrite capitalize_words_strip.
    assert (Ec : cleaned (capitalize_words n) = cleaned n).
    { rewrite !cleaned_steps.
      rewrite (remove_all_no_match remove_terms _ H).
      rewrite (remove_all_no_match remove_terms n
                 (boilerplate_capitalize_words a H)).
      apply tidy_up_capitalize_words. }
    rewrite Ec, E. apply capitalize_words_twice.
  - rewrite (clean_account_name_unfold _ Hy).
    rewrite (cleaned_fixed n H). rewrite E. reflexivity.
Qed.

End Idempotence.

(** ** The claims on the normalizer *)

Section NormalizerClaims.

(** C7, the failing input.  An empty name gives the sentinel, but a name
    made of a single blank is not empty, is trimmed to nothing, and the
    fallback returns the capitalized words of nothing: the empty
    string. *)
Theorem blank_name_cleans_to_empty :
  clean_account_name (Some []) = py "Unknown Business"
  /\ clean_account_name None = py "Unknown Business"
  /\ cleaned (strip (py " ")) = []
  /\ clean_account_name (Some (py " ")) = [].
Proof. vm_compute. repeat split. Qed.

(** C8, the failing input.  In "My Restaurant Ltd - 12345" the dash has a
    blank on its left, so the [\b] that opens [\b-\s*\d+\b] does not
    hold there, the term matches nowhere, and the number stays. *)
Theorem restaurant_keeps_its_number :
  nth 18 remove_terms none = seq [Bnd; li "-"; sp_star; plus is_digit; Bnd]
  /\ search (nth 18 remove_terms none) (py "My Restaurant Ltd - 12345") = false
  /\ clean_account_name (Some (py "My Restaurant Ltd - 12345"))
     = py "My Restaurant Ltd 12345"
  /\ clean_account_name (Some (py "My Restaurant Ltd- 12345"))
     = py "My Restaurant Ltd".
Proof.
  split; [reflexivity|]. vm_compute. repeat split.
Qed.

(** C9, the failing input.  The name " " cleans to the empty string, which
    holds no boilerplate, and cleaning the empty string gives the
    sentinel: the second cleaning is no no-op. *)
Theorem blank_name_not_idempotent :
  has_boilerplate (clean_account_name (Some (py " "))) = false
  /\ clean_account_name (Some (py " ")) = []
  /\ clean_account_name (Some (clean_account_name (Some (py " "))))
     = py "Unknown Business".
Proof. vm_compute. repeat split. Qed.

End NormalizerClaims.

(** ** More on the classifier: where each label comes from *)

Section LabelOrigins.

Local Arguments search : simpl never.

Lemma lookup_some_in k d v : lookup k d = Some v -> In (k, v) d.
Proof.
  induction d as [|[k' v'] d IH]; simpl; intro H; [discriminate H|].
  destruct (str_eqb k k') eqn:E.
  - injection H as ->. apply str_eqb_eq in E. subst k'. left. reflexivity.
  - right. apply IH. exact H.
Qed.

Lemma first_broad_expenses category label :
  first_broad category broad_matchers = Some label -> label = py "Expenses".
Proof.
  unfold broad_matchers. cbn [first_broad].
  destruct (existsb (startswith category) _); intro H; [|discriminate H].
  injection H as <-. reflexivity.
Qed.


Ltac other_label H :=
  exfalso; injection H as H; vm_compute in H; discriminate H.

Lemma plaid_map_values label :
  In label (map snd plaid_map) ->
  In label [py "Income"; py "Special Inflow"; py "Loans"; py "Special Outflow";
            py "Failed Payment"].
Proof.
  unfold plaid_map. cbn [map snd In].
  intro H. repeat (destruct H as [<- | H]; [cbn [In]; tauto|]). destruct H.
Qed.

Lemma lookup_not_default category label :
  lookup category plaid_map = Some label ->
  label <> py "Uncategorised" /\ label <> py "Expenses"
  /\ label <> py "Debt Repayments".
Proof.
  intro H. apply lookup_in in H. apply plaid_map_values in H.
  cbn [In] in H.
  repeat (destruct H as [<- | H];
          [repeat split; intro E; vm_compute in E; discriminate E|]).
  destruct H.
Qed.

Lemma lookup_loans category :
  lookup category plaid_map = Some (py "Loans") ->
  category = py "transfer_in_cash_advances_and_loans".
Proof.
  intro H. apply lookup_some_in in H. unfold plaid_map in H. cbn [In] in H.
  repeat (destruct H as [H | H];
          [ first [ injection H as H1 H2; vm_compute in H2; discriminate H2
                  | injection H as H1; symmetry; exact H1 ] |]).
  destruct H.
Qed.

Lemma fallback_fires is_debit category text :
  loan_hint_fires category text = true ->
  plaid_fallback is_debit category text = py "Debt Repayments".
Proof.
  unfold plaid_fallback, loan_hint_fires. intros ->. reflexivity.
Qed.

Lemma fallback_misses is_debit category text :
  loan_hint_fires category text = false ->
  plaid_fallback is_debit category text
  = match lookup category plaid_map with
    | Some label => label
    | None =>
        match first_broad category broad_matchers with
        | Some label => label
        | None => if is_debit then py "Expenses" else py "Uncategorised"
        end
    end.
Proof.
  unfold plaid_fallback, loan_hint_fires. intros ->. reflexivity.
Qed.

(** The cascade, rule by rule. *)
Lemma cascade_cases is_credit is_debit category text :
  (is_credit = true /\ cascade is_credit is_debit category text = py "Income")
  \/ (is_credit = true /\ cascade is_credit is_debit category text = py "Loans")
  \/ (is_debit = true /\ search repayment_re text = true
      /\ cascade is_credit is_debit category text = py "Debt Repayments")
  \/ (search software_re text = true
      /\ cascade is_credit is_debit category text = py "Expenses")
  \/ (keyword_rule_fires is_credit is_debit text = false
      /\ cascade is_credit is_debit category text
         = plaid_fallback is_debit category text).
Proof.
  unfold cascade, keyword_rule_fires.
  destruct is_credit; cbn [andb orb].
  - destruct (search processor_re text); [left; split; reflexivity|].
    destruct (search youlend_re text).
    { destruct (search funding_re text);
        [right; left; split; reflexivity | left; split; reflexivity]. }
    destruct (search lender_re text); [right; left; split; reflexivity|].
    destruct (is_debit && search repayment_re text) eqn:E.
    { apply andb_true_iff in E. destruct E as [-> E].
      right; right; left. repeat split. exact E. }
    destruct (search software_re text) eqn:Es.
    { right; right; right; left. split; reflexivity. }
    right; right; right; right. split; reflexivity.
  - destruct (is_debit && search repayment_re text) eqn:E.
    { apply andb_true_iff in E. destruct E as [-> E].
      right; right; left. repeat split. exact E. }
    destruct (search software_re text) eqn:Es.
    { right; right; right; left. split; reflexivity. }
    right; right; right; right. split; reflexivity.
Qed.

(** X1. The classifier answers Uncategorised exactly when the amount is no
    debit and nothing matched: no keyword rule, no validated loan-payment
    hint, no exact category and no broad prefix.  A debit is never
    Uncategorised. *)
Theorem uncategorised_iff_nothing_matched (t : transaction) (is_credit is_debit : bool) :
  lt0 (amount_of t) = Ok is_credit ->
  gt0 (amount_of t) = Ok is_debit ->
  (map_transaction_category t = Ok (py "Uncategorised")
   <-> is_debit = false
       /\ keyword_rule_fires is_credit is_debit (combined_text t) = false
       /\ loan_hint_fires (category_of t) (combined_text t) = false
       /\ lookup (category_of t) plaid_map = None
       /\ first_broad (category_of t) broad_matchers = None).
Proof.
  intros Hc Hd. rewrite (classify_signs t _ _ Hc Hd). split.
  - intro H.
    destruct (cascade_cases is_credit is_debit (category_of t) (combined_text t))
      as [[_ E] | [[_ E] | [(_ & _ & E) | [[_ E] | [Hk E]]]]];
      rewrite E in H; try (other_label H).
    destruct (loan_hint_fires (category_of t) (combined_text t)) eqn:Eh.
    { rewrite (fallback_fires _ _ _ Eh) in H. other_label H. }
    rewrite (fallback_misses _ _ _ Eh) in H.
    destruct (lookup (category_of t) plaid_map) as [label|] eqn:El.
    { destruct (lookup_not_default _ _ El) as [Hn _].
      exfalso. apply Hn. injection H as H. exact H. }
    destruct (first_broad (category_of t) broad_matchers) as [label|] eqn:Eb.
    { rewrite (first_broad_expenses _ _ Eb) in H. other_label H. }
    destruct is_debit; [other_label H|].
    repeat split; assumption.
  - intros (-> & Hk & Eh & El & Eb).
    rewrite (cascade_fallthrough _ _ _ _ Hk).
    rewrite (fallback_misses _ _ _ Eh). rewrite El, Eb. reflexivity.
Qed.

Lemma uncategorised_iff_nothing_matched_witness :
  map_transaction_category (record "Transfer from J Smith" "" "" (PyInt (-75)))
  = Ok (py "Uncategorised").
Proof.
  apply (proj2 (uncategorised_iff_nothing_matched
                  (record "Transfer from J Smith" "" "" (PyInt (-75)))
                  true false eq_refl eq_refl)).
  repeat split.
Defined.


(** X2. Loans is the label of credits only, the exact category
    [transfer_in_cash_advances_and_loans] apart. *)
Theorem loans_only_for_credits (t : transaction) (is_credit is_debit : bool) :
  lt0 (amount_of t) = Ok is_credit ->
  gt0 (amount_of t) = Ok is_debit ->
  map_transaction_category t = Ok (py "Loans") ->
  is_credit = true
  \/ category_of t = py "transfer_in_cash_advances_and_loans".
Proof.
  intros Hc Hd. rewrite (classify_signs t _ _ Hc Hd). intro H.
  destruct (cascade_cases is_credit is_debit (category_of t) (combined_text t))
    as [[_ E] | [[Hcr E] | [(_ & _ & E) | [[_ E] | [Hk E]]]]];
    rewrite E in H; try (other_label H).
  - left. exact Hcr.
  - destruct (loan_hint_fires (category_of t) (combined_text t)) eqn:Eh.
    { rewrite (fallback_fires _ _ _ Eh) in H. other_label H. }
    rewrite (fallback_misses _ _ _ Eh) in H.
    destruct (lookup (category_of t) plaid_map) as [label|] eqn:El.
    { injection H as ->. right. apply lookup_loans. exact El. }
    destruct (first_broad (category_of t) broad_matchers) as [label|] eqn:Eb.
    { rewrite (first_broad_expenses _ _ Eb) in H. other_label H. }
    destruct is_debit; other_label H.
Qed.

Lemma loans_only_for_credits_witness :
  category_of (record "ATM" "" "Transfer In Cash Advances And Loans" (PyInt 200))
  = py "transfer_in_cash_advances_and_loans".
Proof.
  destruct (loans_only_for_credits
              (record "ATM" "" "Transfer In Cash Advances And Loans" (PyInt 200))
              false true eq_refl eq_refl eq_refl) as [H | H].
  - discriminate H.
  - exact H.
Defined.

(** X3. Debt Repayments has two sources only: a debit with a lender brand
    or repayment keyword, and the validated loan-payment hint. *)
Theorem debt_repayments_sources (t : transaction) (is_credit is_debit : bool) :
  lt0 (amount_of t) = Ok is_credit ->
  gt0 (amount_of t) = Ok is_debit ->
  map_transaction_category t = Ok (py "Debt Repayments") ->
  (is_debit = true /\ search repayment_re (combined_text t) = true)
  \/ loan_hint_fires (category_of t) (combined_text t) = true.
Proof.
  intros Hc Hd. rewrite (classify_signs t _ _ Hc Hd). intro H.
  destruct (cascade_cases is_credit is_debit (category_of t) (combined_text t))
    as [[_ E] | [[_ E] | [(Hdb & Hr & E) | [[_ E] | [Hk E]]]]];
    rewrite E in H; try (other_label H).
  - left. split; assumption.
  - destruct (loan_hint_fires (category_of t) (combined_text t)) eqn:Eh;
      [right; reflexivity|].
    rewrite (fallback_misses _ _ _ Eh) in H.
    destruct (lookup (category_of t) plaid_map) as [label|] eqn:El.
    { destruct (lookup_not_default _ _ El) as (_ & _ & Hn).
      exfalso. apply Hn. injection H as H. exact H. }
    destruct (first_broad (category_of t) broad_matchers) as [label|] eqn:Eb.
    { rewrite (first_broad_expenses _ _ Eb) in H. other_label H. }
    destruct is_debit; other_label H.
Qed.

Lemma debt_repayments_sources_witness :
  (true = true
   /\ search repayment_re
        (combined_text (record "Loan repayment 0042" "" "" (PyInt 310))) = true)
  \/ loan_hint_fires
       (category_of (record "Loan repayment 0042" "" "" (PyInt 310)))
       (combined_text (record "Loan repayment 0042" "" "" (PyInt 310))) = true.
Proof.
  apply (debt_repayments_sources
           (record "Loan repayment 0042" "" "" (PyInt 310)) false true);
    reflexivity.
Defined.

(** X4. Special Inflow, Special Outflow and Failed Payment are never the
    result of a keyword, a prefix or the default: they are the entry of
    [plaid_map] for the external category, reached when no keyword rule
    fired. *)
Theorem special_labels_from_exact_category
  (t : transaction) (is_credit is_debit : bool) (label : str) :
  lt0 (amount_of t) = Ok is_credit ->
  gt0 (amount_of t) = Ok is_debit ->
  In label [py "Special Inflow"; py "Special Outflow"; py "Failed Payment"] ->
  map_transaction_category t = Ok label ->
  keyword_rule_fires is_credit is_debit (combined_text t) = false
  /\ lookup (category_of t) plaid_map = Some label.
Proof.
  intros Hc Hd Hin. rewrite (classify_signs t _ _ Hc Hd). intro H.
  destruct (cascade_cases is_credit is_debit (category_of t) (combined_text t))
    as [[_ E] | [[_ E] | [(_ & _ & E) | [[_ E] | [Hk E]]]]];
    rewrite E in H;
    try (destruct Hin as [<- | [<- | [<- | []]]]; other_label H).
  split; [exact Hk|].
  destruct (loan_hint_fires (category_of t) (combined_text t)) eqn:Eh.
  { rewrite (fallback_fires _ _ _ Eh) in H.
    destruct Hin as [<- | [<- | [<- | []]]]; other_label H. }
  rewrite (fallback_misses _ _ _ Eh) in H.
  destruct (lookup (category_of t) plaid_map) as [l0|] eqn:El.
  { injection H as ->. reflexivity. }
  destruct (first_broad (category_of t) broad_matchers) as [l0|] eqn:Eb.
  { rewrite (first_broad_expenses _ _ Eb) in H.
    destruct Hin as [<- | [<- | [<- | []]]]; other_label H. }
  destruct is_debit; destruct Hin as [<- | [<- | [<- | []]]]; other_label H.
Qed.

Lemma special_labels_from_exact_category_witness :
  keyword_rule_fires false true
    (combined_text (record "Bank charge" "" "bank_fees_late_payment" (PyInt 12)))
  = false
  /\ lookup (category_of (record "Bank charge" "" "bank_fees_late_payment" (PyInt 12)))
       plaid_map
     = Some (py "Failed Payment").
Proof.
  apply (special_labels_from_exact_category
           (record "Bank charge" "" "bank_fees_late_payment" (PyInt 12))
           false true (py "Failed Payment")).
  - reflexivity.
  - reflexivity.
  - right. right. left. reflexivity.
  - reflexivity.
Defined.

Lemma lookup_some_no_hint category label text :
  lookup category plaid_map = Some label -> loan_hint_fires category text = false.
Proof.
  intro H. unfold loan_hint_fires.
  destruct (startswith category (py "loan_payments_")) eqn:E; [|reflexivity].
  destruct (loan_prefix_unmapped category E) as [El _]. congruence.
Qed.

(** X5. When no keyword rule fires, an external category that is a key of
    [plaid_map] decides the label, also where a broad prefix would match
    (a [bank_fees_] category that is an exact key is a Failed Payment, not
    an expense). *)
Theorem exact_category_decides
  (t : transaction) (is_credit is_debit : bool) (label : str) :
  lt0 (amount_of t) = Ok is_credit ->
  gt0 (amount_of t) = Ok is_debit ->
  keyword_rule_fires is_credit is_debit (combined_text t) = false ->
  lookup (category_of t) plaid_map = Some label ->
  map_transaction_category t = Ok label.
Proof.
  intros Hc Hd Hk El. rewrite (classify_signs t _ _ Hc Hd).
  rewrite (cascade_fallthrough _ _ _ _ Hk).
  rewrite (fallback_misses _ _ _ (lookup_some_no_hint _ _ _ El)).
  rewrite El. reflexivity.
Qed.

Lemma exact_category_decides_witness :
  map_transaction_category
    (record "Payroll" "" "Income Wages" (PyInt 1500)) = Ok (py "Income")
  /\ map_transaction_category
       (record "Bank charge" "" "bank_fees_insufficient_funds" (PyInt 25))
     = Ok (py "Failed Payment").
Proof.
  split.
  - apply (exact_category_decides
             (record "Payroll" "" "Income Wages" (PyInt 1500)) false true);
      reflexivity.
  - apply (exact_category_decides
             (record "Bank charge" "" "bank_fees_insufficient_funds" (PyInt 25))
             false true);
      reflexivity.
Defined.

Lemma first_broad_hit category p :
  In p broad_prefixes -> startswith category p = true ->
  first_broad category broad_matchers = Some (py "Expenses").
Proof.
  unfold broad_prefixes, broad_matchers. cbn [map snd List.concat first_broad].
  rewrite app_nil_r. intros Hin Hp.
  match goal with
  | |- context [existsb ?f ?l] =>
      assert (E : existsb f l = true)
        by (apply existsb_exists; exists p; split; assumption)
  end.
  rewrite E. reflexivity.
Qed.

Lemma first_broad_no_hint category label text :
  first_broad category broad_matchers = Some label ->
  loan_hint_fires category text = false.
Proof.
  intro H. unfold loan_hint_fires.
  destruct (startswith category (py "loan_payments_")) eqn:E; [|reflexivity].
  destruct (loan_prefix_unmapped category E) as [_ Eb]. congruence.
Qed.

(** X6. When no keyword rule fires and the external category is no key of
    [plaid_map] but starts with one of the twelve broad prefixes, the label
    is Expenses, whatever the sign of the amount. *)
Theorem broad_prefix_is_expense
  (t : transaction) (is_credit is_debit : bool) (p : str) :
  lt0 (amount_of t) = Ok is_credit ->
  gt0 (amount_of t) = Ok is_debit ->
  keyword_rule_fires is_credit is_debit (combined_text t) = false ->
  lookup (category_of t) plaid_map = None ->
  In p broad_prefixes ->
  startswith (category_of t) p = true ->
  map_transaction_category t = Ok (py "Expenses").
Proof.
  intros Hc Hd Hk El Hin Hp. rewrite (classify_signs t _ _ Hc Hd).
  rewrite (cascade_fallthrough _ _ _ _ Hk).
  pose proof (first_broad_hit _ _ Hin Hp) as Eb.
  rewrite (fallback_misses _ _ _ (first_broad_no_hint _ _ _ Eb)).
  rewrite El, Eb. reflexivity.
Qed.

Lemma broad_prefix_is_expense_witness :
  map_transaction_category
    (record "Refund" "" "FOOD_AND_DRINK_COFFEE" (PyInt (-4)))
  = Ok (py "Expenses").
Proof.
  apply (broad_prefix_is_expense
           (record "Refund" "" "FOOD_AND_DRINK_COFFEE" (PyInt (-4)))
           true false (py "food_and_drink_")).
  - reflexivity.
  - reflexivity.
  - reflexivity.
  - reflexivity.
  - right. right. left. reflexivity.
  - reflexivity.
Defined.


(** *** The you-lend rule *)

Lemma ends_lit_inv w :
  forall prev s e,
    In e (ends (lit w) (prev, s)) ->
    exists rest, s = w ++ rest /\ e = (after prev w, rest).
Proof.
  induction w as [|c w IH]; intros prev s e H.
  - destruct H as [<- | []]. exists s. split; reflexivity.
  - change (ends (lit (c :: w)) (prev, s))
      with (flat_map (ends (lit w)) (ends (Sym (chr c)) (prev, s))) in H.
    apply in_flat_map in H. destruct H as (mid & Hm & He).
    destruct s as [|d s]; simpl in Hm; [destruct Hm|].
    unfold chr in Hm. destruct (Ascii.eqb c d) eqn:E; [|destruct Hm].
    destruct Hm as [<- | []]. apply Ascii.eqb_eq in E. subst d.
    destruct (IH (Some c) s e He) as (rest & -> & ->).
    exists rest. split; [reflexivity|]. rewrite after_cons. reflexivity.
Qed.

Lemma contains_intro w pre post : contains w (pre ++ w ++ post).
Proof. exists pre, post. reflexivity. Qed.

Lemma search_lit_contains w s : search (lit w) s = true <-> contains w s.
Proof.
  split.
  - intro H. destruct (search_elim _ _ H) as (pre & rest & -> & Hm).
    destruct (matches_at_elim _ _ Hm) as [e He].
    destruct (ends_lit_inv w _ _ e He) as (post & -> & _).
    apply contains_intro.
  - intros (pre & post & ->). apply search_intro.
    apply (matches_at_intro _ _ (after (last_char pre) w, post)).
    apply ends_lit.
Qed.

Lemma matches_at_alt a b st :
  matches_at (Alt a b) st = matches_at a st || matches_at b st.
Proof.
  unfold matches_at. simpl. destruct (ends a st), (ends b st); reflexivity.
Qed.

Lemma orb_swap x y z w : (x || y) || (z || w) = (x || z) || (y || w).
Proof. destruct x, y, z, w; reflexivity. Qed.

Lemma search_from_alt a b s :
  forall prev,
    search_from (Alt a b) prev s = search_from a prev s || search_from b prev s.
Proof.
  induction s as [|c t IH]; intro prev.
  - change (matches_at (Alt a b) (prev, []) || false
            = (matches_at a (prev, []) || false) || (matches_at b (prev, []) || false)).
    rewrite matches_at_alt. rewrite !orb_false_r. reflexivity.
  - change (matches_at (Alt a b) (prev, c :: t) || search_from (Alt a b) (Some c) t
            = (matches_at a (prev, c :: t) || search_from a (Some c) t)
              || (matches_at b (prev, c :: t) || search_from b (Some c) t)).
    rewrite matches_at_alt, (IH (Some c)). apply orb_swap.
Qed.

Lemma search_alt a b s : search (Alt a b) s = search a s || search b s.
Proof. apply search_from_alt. Qed.

Lemma search_none s : search none s = false.
Proof.
  unfold search. generalize (@None ascii).
  induction s as [|c t IH]; intro prev; [reflexivity|].
  change (search_from none prev (c :: t))
    with (matches_at none (prev, c :: t) || search_from none (Some c) t).
  rewrite IH. reflexivity.
Qed.

(** The funding token of line 273 is found exactly in the texts that
    contain "fnd" or "fund". *)
Lemma search_funding s :
  search funding_re s = true <-> contains (py "fnd") s \/ contains (py "fund") s.
Proof.
  unfold funding_re. cbn [alts]. rewrite !search_alt, search_none.
  rewrite orb_false_r. unfold l. rewrite !orb_true_iff.
  rewrite !search_lit_contains. split.
  - intros [H | [H | (pre & post & ->)]]; [left; exact H | right; exact H|].
    right. exists pre, (py "ing" ++ post). reflexivity.
  - intros [H | H]; [left; exact H | right; left; exact H].
Qed.

Lemma search_youlend s : contains (py "youlend") s -> search youlend_re s = true.
Proof.
  intros (pre & post & ->). apply search_intro.
  unfold youlend_re.
  apply (matches_at_alts _ (seq [l "you"; sp_opt; l "lend"]));
    [left; reflexivity|].
  apply (matches_at_intro _ _ (Some "d"%char, post)).
  cbn [seq].
  apply (ends_cat _ _ _ (Some "u"%char, py "lend" ++ post)).
  { exact (ends_lit (py "you") (last_char pre) (py "lend" ++ post)). }
  apply (ends_cat _ _ _ (Some "u"%char, py "lend" ++ post)).
  { unfold sp_opt, opt. simpl. left. reflexivity. }
  apply (ends_cat _ _ _ (Some "d"%char, post)).
  { exact (ends_lit (py "lend") (Some "u"%char) post). }
  left. reflexivity.
Qed.

(** X7. A credit whose text contains "youlend" and no payment-processor
    keyword is a loan when the text also contains "fnd" or "fund", and
    income when it contains neither. *)
Theorem youlend_credit_split (t : transaction) :
  lt0 (amount_of t) = Ok true ->
  contains (py "youlend") (combined_text t) ->
  search processor_re (combined_text t) = false ->
  (contains (py "fnd") (combined_text t) \/ contains (py "fund") (combined_text t) ->
   map_transaction_category t = Ok (py "Loans"))
  /\ (~ contains (py "fnd") (combined_text t) ->
      ~ contains (py "fund") (combined_text t) ->
      map_transaction_category t = Ok (py "Income")).
Proof.
  intros Hc Hy Hp. rewrite (classify_credit t Hc). unfold cascade.
  rewrite Hp. rewrite (search_youlend _ Hy). cbn [andb].
  split.
  - intro Hf. rewrite (proj2 (search_funding _) Hf). reflexivity.
  - intros H1 H2. destruct (search funding_re (combined_text t)) eqn:E;
      [|reflexivity].
    apply search_funding in E. tauto.
Qed.

Lemma youlend_credit_split_witness :
  map_transaction_category (record "YOULEND LTD FND88213" "" "" (PyInt (-9000)))
  = Ok (py "Loans").
Proof.
  apply (proj1 (youlend_credit_split
                  (record "YOULEND LTD FND88213" "" "" (PyInt (-9000)))
                  eq_refl
                  (contains_intro (py "youlend") [] (py " ltd fnd88213 "))
                  eq_refl)).
  left. exact (contains_intro (py "fnd") (py "youlend ltd ") (py "88213 ")).
Defined.

End LabelOrigins.

(** ** The flags the orchestrator derives from the label *)

Section Flags.

Lemma classified_label t label :
  categorize_transaction t = Ok label -> In label MCA_CATEGORIES.
Proof.
  unfold categorize_transaction, map_transaction_category.
  destruct (lt0 (amount_of t)) as [c|e]; [|discriminate].
  destruct (gt0 (amount_of t)) as [d|e]; [|discriminate].
  simpl. intro H. injection H as <-. apply cascade_label.
Qed.

(** X8. The four flags exclude one another, for any label; and among the
    labels the classifier returns, exactly Failed Payment and
    Uncategorised set no flag at all. *)
Theorem flags_exclusive (t : transaction) (label : str) :
  flags_set label <= 1
  /\ (categorize_transaction t = Ok label ->
      (flags_set label = 0
       <-> label = py "Failed Payment" \/ label = py "Uncategorised")).
Proof.
  split.
  - unfold flags_set, is_revenue, is_expense, is_debt_repayment, is_debt, mem.
    cbn [existsb].
    repeat match goal with
           | |- context [str_eqb label ?c] =>
               let E := fresh "E" in
               destruct (str_eqb label c) eqn:E;
               [ apply str_eqb_eq in E; subst label; vm_compute; lia | ]
           end.
    cbn. lia.
  - intro H. apply classified_label in H. unfold MCA_CATEGORIES in H.
    cbn [In] in H.
    repeat (destruct H as [<- | H];
            [ vm_compute; split;
              [ intro E; first [ discriminate E | tauto ]
              | intros [E | E]; first [ discriminate E | reflexivity ] ] | ]).
    destruct H.
Qed.

Lemma flags_exclusive_witness :
  flags_set (py "Failed Payment") = 0.
Proof.
  apply (proj2 (flags_exclusive
                  (record "Bank charge" "" "bank_fees_late_payment" (PyInt 12))
                  (py "Failed Payment"))).
  - reflexivity.
  - left. reflexivity.
Defined.

End Flags.

(** ** Account discovery *)

Section Accounts.

Lemma str_eqb_refl (a : str) : str_eqb a a = true.
Proof.
  induction a as [|x a IH]; simpl; [reflexivity|].
  rewrite Ascii.eqb_refl. exact IH.
Qed.

Lemma str_eqb_false (a b : str) : a <> b -> str_eqb a b = false.
Proof.
  intro H. destruct (str_eqb a b) eqn:E; [|reflexivity].
  apply str_eqb_eq in E. contradiction.
Qed.

Lemma str_eqb_differ (a b : str) : str_eqb a b = false -> a <> b.
Proof. intros H E. subst b. rewrite str_eqb_refl in H. discriminate H. Qed.

Lemma mem_true (x : str) (l : list str) : mem x l = true <-> In x l.
Proof.
  unfold mem. rewrite existsb_exists. split.
  - intros [y [Hy E]]. apply str_eqb_eq in E. subst y. exact Hy.
  - intro H. exists x. split; [exact H | apply str_eqb_refl].
Qed.

Lemma mem_false (x : str) (l : list str) : mem x l = false <-> ~ In x l.
Proof.
  split.
  - intros H Hin. apply mem_true in Hin. congruence.
  - intro H. destruct (mem x l) eqn:E; [|reflexivity].
    apply mem_true in E. contradiction.
Qed.

Lemma keys_count_again k i (d : account_dict) : keys (count_again k i d) = keys d.
Proof.
  induction d as [|[k' e] d IH]; [reflexivity|].
  simpl. destruct (str_eqb k k'); simpl; [reflexivity|].
  f_equal. exact IH.
Qed.

Lemma keys_add_account (d : account_dict) a :
  keys (add_account d a) = add_name (keys d) a.
Proof.
  unfold add_account, add_name.
  destruct (mem (get (Acct.name a) (py "Unknown Account")) (keys d)); simpl.
  - apply keys_count_again.
  - unfold keys. rewrite map_app. reflexivity.
Qed.

Lemma keys_fold accounts : forall d : account_dict,
  keys (fold_left add_account accounts d) = fold_left add_name accounts (keys d).
Proof.
  induction accounts as [|a accounts IH]; intro d; [reflexivity|].
  simpl. rewrite IH. rewrite keys_add_account. reflexivity.
Qed.

Lemma ids_named_app k p q : ids_named k (p ++ q) = ids_named k p ++ ids_named k q.
Proof. unfold ids_named. rewrite filter_app, map_app. reflexivity. Qed.

Lemma ids_named_absent k p : ~ In k (map name_of p) -> ids_named k p = [].
Proof.
  induction p as [|a p IH]; intro H; [reflexivity|].
  unfold ids_named. simpl.
  rewrite (str_eqb_false (name_of a) k).
  - apply IH. intro Hin. apply H. right. exact Hin.
  - intro E. apply H. left. exact E.
Qed.

Lemma first_named_absent k p : ~ In k (map name_of p) -> first_named k p = None.
Proof.
  induction p as [|a p IH]; intro H; [reflexivity|].
  unfold first_named. simpl.
  rewrite (str_eqb_false (name_of a) k).
  - apply IH. intro Hin. apply H. right. exact Hin.
  - intro E. apply H. left. exact E.
Qed.

Lemma first_named_app k p q a :
  first_named k p = Some a -> first_named k (p ++ q) = Some a.
Proof.
  unfold first_named. induction p as [|b p IH]; simpl; [discriminate|].
  destruct (str_eqb (name_of b) k); [trivial | exact IH].
Qed.

Lemma first_named_skip k p q :
  first_named k p = None -> first_named k (p ++ q) = first_named k q.
Proof.
  unfold first_named. induction p as [|b p IH]; simpl; [reflexivity|].
  destruct (str_eqb (name_of b) k); [discriminate | exact IH].
Qed.

Lemma total_count_app (d d' : account_dict) :
  total_count (d ++ d') = total_count d + total_count d'.
Proof.
  induction d as [|kv d IH]; [reflexivity|].
  simpl. rewrite IH. lia.
Qed.

Lemma total_count_again k i (d : account_dict) :
  In k (keys d) -> total_count (count_again k i d) = S (total_count d).
Proof.
  induction d as [|[k' e] d IH]; intro H; [destruct H|].
  simpl. destruct (str_eqb k k') eqn:E; simpl.
  - lia.
  - rewrite IH; [lia|]. destruct H as [H|H]; [|exact H].
    simpl in H. subst k'. rewrite str_eqb_refl in E. discriminate E.
Qed.

(** An entry under another name is not touched by the next account. *)
Lemma filed_other p a kv :
  filed p kv -> fst kv <> name_of a -> filed (p ++ [a]) kv.
Proof.
  intros [Hn [Hi [Hc [b [Hf [Ht Hs]]]]]] Hk.
  assert (E : ids_named (fst kv) (p ++ [a]) = ids_named (fst kv) p).
  { rewrite ids_named_app. unfold ids_named at 2. simpl.
    rewrite (str_eqb_false (name_of a) (fst kv)) by congruence.
    apply app_nil_r. }
  unfold filed. rewrite E. repeat split; try assumption.
  exists b. repeat split; try assumption.
  apply first_named_app. exact Hf.
Qed.

(** The entry under the name of the next account counts it. *)
Lemma filed_again p a k e :
  filed p (k, e) -> k = name_of a ->
  filed (p ++ [a])
    (k, {| Info.name := Info.name e;
           Info.type := Info.type e;
           Info.subtype := Info.subtype e;
           Info.count := Info.count e + 1;
           Info.account_ids := Info.account_ids e ++ [id_of a] |}).
Proof.
  intros [Hn [Hi [Hc [b [Hf [Ht Hs]]]]]] Hk. simpl in *.
  assert (E : ids_named k (p ++ [a]) = ids_named k p ++ [id_of a]).
  { rewrite ids_named_app. unfold ids_named at 2. simpl.
    rewrite Hk, str_eqb_refl. reflexivity. }
  unfold filed. simpl. rewrite E. repeat split.
  - exact Hn.
  - rewrite Hi. reflexivity.
  - rewrite Hc. rewrite length_app. reflexivity.
  - exists b. repeat split; try assumption.
    apply first_named_app. exact Hf.
Qed.

Lemma filed_count_again p a (d : account_dict) :
  NoDup (keys d) -> Forall (filed p) d -> In (name_of a) (keys d) ->
  Forall (filed (p ++ [a])) (count_again (name_of a) (id_of a) d).
Proof.
  induction d as [|[k e] d IH]; intros Hd Hf Hin; [destruct Hin|].
  inversion Hd as [|? ? Hk Hd']; subst.
  inversion Hf as [|? ? He Hf']; subst.
  simpl. destruct (str_eqb (name_of a) k) eqn:E.
  - apply str_eqb_eq in E. apply Forall_cons.
    + apply filed_again; [exact He | symmetry; exact E].
    + apply Forall_forall. intros kv Hkv.
      apply filed_other.
      * exact (proj1 (Forall_forall _ _) Hf' kv Hkv).
      * intro E'. apply Hk. rewrite <- E, <- E'.
        apply in_map. exact Hkv.
  - apply str_eqb_differ in E. apply Forall_cons.
    + apply filed_other; [exact He | simpl; congruence].
    + apply IH; [exact Hd' | exact Hf' |].
      destruct Hin as [Hin|Hin]; [simpl in Hin; congruence | exact Hin].
Qed.

Lemma consistent_nil : consistent [] [].
Proof.
  repeat split; try (intros []); [constructor | constructor].
Qed.

Lemma add_account_known (d : account_dict) a :
  mem (name_of a) (keys d) = true ->
  add_account d a = count_again (name_of a) (id_of a) d.
Proof.
  intro E. unfold add_account. fold (name_of a). rewrite E. reflexivity.
Qed.

Lemma add_account_new (d : account_dict) a :
  mem (name_of a) (keys d) = false ->
  add_account d a
  = d ++ [(name_of a, {| Info.name := name_of a;
                         Info.type := type_of a;
                         Info.subtype := subtype_of a;
                         Info.count := 1;
                         Info.account_ids := [id_of a] |})].
Proof.
  intro E. unfold add_account. fold (name_of a). rewrite E. reflexivity.
Qed.

(** The body of the loop keeps the dict consistent. *)
Lemma consistent_step p (d : account_dict) a :
  consistent p d -> consistent (p ++ [a]) (add_account d a).
Proof.
  intros [Hd [Hk [Hf Ht]]].
  destruct (mem (name_of a) (keys d)) eqn:E.
  - rewrite (add_account_known d a E).
    apply mem_true in E.
    assert (Hkeys := keys_count_again (name_of a) (id_of a) d).
    split; [|split; [|split]].
    + rewrite Hkeys. exact Hd.
    + intro k. rewrite Hkeys, map_app, in_app_iff. split.
      * intro H. left. apply Hk. exact H.
      * intros [H|[H|[]]]; [apply Hk; exact H | rewrite <- H; exact E].
    + apply filed_count_again; assumption.
    + rewrite total_count_again by exact E. rewrite length_app. simpl. lia.
  - rewrite (add_account_new d a E).
    apply mem_false in E.
    assert (Ha : ~ In (name_of a) (map name_of p)).
    { intro H. apply E. apply Hk. exact H. }
    split; [|split; [|split]].
    + unfold keys. rewrite map_app. apply NoDup_app.
      * exact Hd.
      * constructor; [intros []|constructor].
      * intros k Hin [H|[]]. simpl in H. subst k. contradiction.
    + intro k. unfold keys. rewrite !map_app, !in_app_iff. split.
      * intros [H|H]; [left; apply Hk; exact H | right; exact H].
      * intros [H|H]; [left; apply Hk; exact H | right; exact H].
    + apply Forall_app. split.
      * apply Forall_forall. intros kv Hkv. apply filed_other.
        -- exact (proj1 (Forall_forall _ _) Hf kv Hkv).
        -- intro E'. apply E. rewrite <- E'. apply in_map. exact Hkv.
      * apply Forall_cons; [|constructor].
        assert (Ei : ids_named (name_of a) (p ++ [a]) = [id_of a]).
        { rewrite ids_named_app, (ids_named_absent _ _ Ha).
          unfold ids_named. simpl. rewrite str_eqb_refl. reflexivity. }
        unfold filed. simpl. rewrite Ei.
        split; [reflexivity|]. split; [reflexivity|]. split; [reflexivity|].
        exists a. split; [|split; reflexivity].
        rewrite (first_named_skip _ p [a] (first_named_absent _ _ Ha)).
        unfold first_named. simpl. rewrite str_eqb_refl. reflexivity.
    + rewrite total_count_app, length_app. simpl. lia.
Qed.

Lemma consistent_fold accounts : forall p (d : account_dict),
  consistent p d -> consistent (p ++ accounts) (fold_left add_account accounts d).
Proof.
  induction accounts as [|a accounts IH]; intros p d H.
  - rewrite app_nil_r. exact H.
  - simpl. replace (p ++ a :: accounts) with ((p ++ [a]) ++ accounts)
      by (rewrite <- app_assoc; reflexivity).
    apply IH. apply consistent_step. exact H.
Qed.

Lemma consistent_all accounts : consistent accounts (fold_left add_account accounts []).
Proof. exact (consistent_fold accounts [] [] consistent_nil). Qed.

(** What the function returns, in terms of the loop. *)
Lemma extract_unfold accounts filename :
  account_options (extract_business_name_from_json accounts filename)
  = keys (fold_left add_account (get accounts []) []) /\
  account_info (extract_business_name_from_json accounts filename)
  = fold_left add_account (get accounts []) [].
Proof.
  unfold extract_business_name_from_json.
  destruct (get accounts []) as [|a rest]; [split; reflexivity|].
  destruct (List.length (keys (fold_left add_account (a :: rest) [])) =? 1);
    split; reflexivity.
Qed.

Lemma add_name_head k ks a : exists ks', add_name (k :: ks) a = k :: ks'.
Proof.
  unfold add_name.
  destruct (negb (mem (get (Acct.name a) (py "Unknown Account")) (k :: ks))).
  - exists (ks ++ [get (Acct.name a) (py "Unknown Account")]). reflexivity.
  - exists ks. reflexivity.
Qed.

Lemma fold_add_name_head accounts : forall k ks,
  exists ks', fold_left add_name accounts (k :: ks) = k :: ks'.
Proof.
  induction accounts as [|a accounts IH]; intros k ks.
  - exists ks. reflexivity.
  - simpl. destruct (add_name_head k ks a) as [ks' E]. rewrite E. apply IH.
Qed.

Lemma keys_first a rest :
  exists ks, keys (fold_left add_account (a :: rest) []) = name_of a :: ks.
Proof.
  rewrite keys_fold. simpl. apply fold_add_name_head.
Qed.

Lemma first_named_counted k p a :
  first_named k p = Some a -> 1 <= List.length (ids_named k p).
Proof.
  unfold first_named, ids_named. induction p as [|b p IH]; simpl; [discriminate|].
  destruct (str_eqb (name_of b) k); simpl; [lia | exact IH].
Qed.

Lemma extract_nonempty accounts filename a rest :
  get accounts [] = a :: rest ->
  exists ks,
    extract_business_name_from_json accounts filename
    = (clean_account_name (Some (name_of a)), name_of a :: ks,
       fold_left add_account (a :: rest) []).
Proof.
  intro E. unfold extract_business_name_from_json. rewrite E.
  cbv beta iota zeta.
  destruct (keys_first a rest) as [ks Ek]. exists ks. rewrite Ek.
  change (nth 0 (name_of a :: ks) []) with (name_of a).
  destruct (List.length (name_of a :: ks) =? 1); reflexivity.
Qed.

(** X9. The options offered for a file are the names of its accounts, each
    once: the list has no duplicate, and a name is in it exactly when some
    account of the file is filed under it. *)
Theorem account_options_are_the_names (accounts : option (list Acct.t)) (filename : str) :
  NoDup (account_options (extract_business_name_from_json accounts filename)) /\
  forall k, In k (account_options (extract_business_name_from_json accounts filename))
            <-> exists a, In a (get accounts []) /\ name_of a = k.
Proof.
  destruct (extract_unfold accounts filename) as [Eo _]. rewrite Eo.
  destruct (consistent_all (get accounts [])) as [Hd [Hk _]].
  split; [exact Hd|].
  intro k. rewrite Hk, in_map_iff. split.
  - intros [a [E Hin]]. exists a. split; assumption.
  - intros [a [Hin E]]. exists a. split; assumption.
Qed.

(** X10. Every entry of the detail map describes the accounts of its name:
    it is keyed by its own name, its identifiers are those of the accounts
    of that name in the order of the file, its count is their number (at
    least one), and its type and subtype are those of the first of them. *)
Theorem account_info_groups_by_name
  (accounts : option (list Acct.t)) (filename k : str) (e : Info.t) :
  In (k, e) (account_info (extract_business_name_from_json accounts filename)) ->
  Info.name e = k /\
  Info.account_ids e = ids_named k (get accounts []) /\
  Info.count e = List.length (Info.account_ids e) /\
  1 <= Info.count e /\
  exists a, first_named k (get accounts []) = Some a /\
            Info.type e = type_of a /\ Info.subtype e = subtype_of a.
Proof.
  destruct (extract_unfold accounts filename) as [_ Ei]. rewrite Ei.
  destruct (consistent_all (get accounts [])) as [_ [_ [Hf _]]].
  intro Hin.
  destruct (proj1 (Forall_forall _ _) Hf (k, e) Hin)
    as [Hn [Hi [Hc [a [Hfirst [Ht Hs]]]]]].
  simpl in *. split; [exact Hn|]. split; [exact Hi|].
  split; [rewrite Hi; exact Hc|].
  split; [rewrite Hc; exact (first_named_counted k _ a Hfirst)|].
  exists a. split; [exact Hfirst|]. split; assumption.
Qed.

Lemma account_info_groups_by_name_witness :
  let e := {| Info.name := py "Acme Ltd Current Account";
              Info.type := py "depository"; Info.subtype := py "checking";
              Info.count := 2; Info.account_ids := [py "a1"; py "a3"] |} in
  Info.name e = py "Acme Ltd Current Account" /\
  Info.account_ids e = ids_named (py "Acme Ltd Current Account") sample_accounts /\
  Info.count e = List.length (Info.account_ids e) /\
  1 <= Info.count e /\
  exists a, first_named (py "Acme Ltd Current Account") sample_accounts = Some a /\
            Info.type e = type_of a /\ Info.subtype e = subtype_of a.
Proof.
  apply (account_info_groups_by_name (Some sample_accounts) (py "acme.json")).
  vm_compute. left. reflexivity.
Defined.

(** X11. The counts of the detail map add up to the number of accounts of the
    file: every account is counted once. *)
Theorem account_counts_add_up (accounts : option (list Acct.t)) (filename : str) :
  total_count (account_info (extract_business_name_from_json accounts filename))
  = List.length (get accounts []).
Proof.
  destruct (extract_unfold accounts filename) as [_ Ei]. rewrite Ei.
  destruct (consistent_all (get accounts [])) as [_ [_ [_ Ht]]]. exact Ht.
Qed.

(** X12. When the file has an account, the suggested business name is the
    cleaned name of the first account, and that account's name is the first
    option. *)
Theorem suggested_name_from_first_account
  (accounts : option (list Acct.t)) (filename : str) (a : Acct.t) (rest : list Acct.t) :
  get accounts [] = a :: rest ->
  extracted_name (extract_business_name_from_json accounts filename)
  = clean_account_name (Some (name_of a)) /\
  hd_error (account_options (extract_business_name_from_json accounts filename))
  = Some (name_of a).
Proof.
  intro E. destruct (extract_nonempty accounts filename a rest E) as [ks Er].
  rewrite Er. split; reflexivity.
Qed.

Lemma suggested_name_from_first_account_witness :
  extracted_name (extract_business_name_from_json (Some sample_accounts) (py "acme.json"))
  = clean_account_name (Some (py "Acme Ltd Current Account")) /\
  hd_error (account_options (extract_business_name_from_json (Some sample_accounts) (py "acme.json")))
  = Some (py "Acme Ltd Current Account").
Proof.
  apply (suggested_name_from_first_account (Some sample_accounts) (py "acme.json")
           acme_current [unnamed_account; acme_credit]).
  reflexivity.
Defined.

(** X13. A file without accounts (the key missing or the list empty) gets the
    sentinel that names the file, no option and an empty detail map; and
    only such a file gets no option. *)
Theorem no_option_iff_no_account (accounts : option (list Acct.t)) (filename : str) :
  (get accounts [] = [] ->
   extract_business_name_from_json accounts filename
   = (py "Unknown Business (" ++ filename ++ py ")", [], [])) /\
  (account_options (extract_business_name_from_json accounts filename) = [] ->
   get accounts [] = []).
Proof.
  split.
  - intro E. unfold extract_business_name_from_json. rewrite E. reflexivity.
  - destruct (get accounts []) as [|a rest] eqn:E; [reflexivity|].
    destruct (extract_nonempty accounts filename a rest E) as [ks Er].
    rewrite Er. intro H. discriminate H.
Qed.

(** X14. The definition of line 515, which replaces the one of line 55,
    returns the same suggested name and the same options as the one it
    replaces. *)
Theorem later_definition_extends_the_first (accounts : option (list Acct.t)) (filename : str) :
  fst (extract_business_name_from_json accounts filename)
  = extract_business_name_from_json_first accounts filename.
Proof.
  unfold extract_business_name_from_json, extract_business_name_from_json_first.
  destruct (get accounts []) as [|a rest]; [reflexivity|].
  rewrite keys_fold. change (keys []) with (@nil str).
  destruct (List.length (fold_left add_name (a :: rest) []) =? 1); reflexivity.
Qed.

End Accounts.

(** ** More on the normalizer *)

Section NormalizerShape.

Lemma length_str_lower (s : str) : List.length (str_lower s) = List.length s.
Proof. apply length_map. Qed.

(** [re.sub] under [re.IGNORECASE] commutes with lowering the case. *)
Lemma sub_from_lower r (repl : str) :
  case_blind r -> forall (s : str) k prev,
  str_lower (sub_from r repl k prev s)
  = sub_from r (str_lower repl) k (option_map lower prev) (str_lower s).
Proof.
  intros Hr s. induction s as [|c t IH]; intros k prev.
  - change (str_lower []) with (@nil ascii). rewrite !sub_from_nil. reflexivity.
  - change (str_lower (c :: t)) with (lower c :: str_lower t).
    destruct k as [|k]; [|exact (IH k (Some c))].
    rewrite !sub_from_step.
    change (option_map lower prev, lower c :: str_lower t)
      with (lower_pos (prev, c :: t)).
    rewrite (ends_lower r Hr (prev, c :: t)).
    destruct (ends r (prev, c :: t)) as [|[p rest] l].
    + cbn [map]. change (str_lower (c :: ?x)) with (lower c :: str_lower x).
      f_equal. exact (IH 0 (Some c)).
    + cbn [map lower_pos snd fst].
      change (List.length (lower c :: str_lower t)) with (S (List.length (str_lower t))).
      change (List.length (c :: t)) with (S (List.length t)).
      rewrite !length_str_lower.
      destruct (S (List.length t) - List.length rest) as [|j].
      * change (str_lower (c :: ?x)) with (lower c :: str_lower x).
        f_equal. exact (IH 0 (Some c)).
      * unfold str_lower at 1. rewrite map_app. f_equal. exact (IH j (Some c)).
Qed.

Lemma sub_lower r (s : str) :
  case_blind r -> str_lower (sub r [] s) = sub r [] (str_lower s).
Proof. intro Hr. exact (sub_from_lower r [] Hr s 0 None). Qed.

Lemma remove_all_lower terms :
  Forall case_blind terms -> forall s : str,
  str_lower (remove_all terms s) = remove_all terms (str_lower s).
Proof.
  unfold remove_all. induction 1 as [|r rs Hr Hrs IH]; intro s; [reflexivity|].
  simpl. rewrite IH. rewrite (sub_lower r s Hr). reflexivity.
Qed.

Lemma remove_terms_case_blind : Forall case_blind remove_terms.
Proof.
  eapply Forall_impl; [|exact remove_terms_sound].
  intros r [_ [_ H]]. exact H.
Qed.

Lemma cleaned_lower (n : str) : cleaned (str_lower n) = cleaned n.
Proof.
  rewrite !cleaned_steps.
  rewrite <- (remove_all_lower remove_terms remove_terms_case_blind n).
  apply tidy_up_lower.
Qed.

Lemma clean_account_name_lower (a : str) :
  clean_account_name (Some (str_lower a)) = clean_account_name (Some a).
Proof.
  destruct a as [|c a]; [reflexivity|].
  assert (H1 : c :: a <> []) by discriminate.
  assert (H2 : str_lower (c :: a) <> []) by discriminate.
  rewrite (clean_account_name_unfold _ H1), (clean_account_name_unfold _ H2).
  rewrite <- strip_lower. rewrite cleaned_lower, capitalize_words_lower.
  reflexivity.
Qed.

Lemma capitalize_words_sentinel :
  capitalize_words (py "Unknown Business") = py "Unknown Business".
Proof. reflexivity. Qed.

(** X15. On ASCII names the cleaned name does not depend on the letter
    case of the raw name: two ASCII names that differ only in case are
    cleaned to the same name. *)
Theorem clean_account_name_ignores_case (a b : str) :
  ascii_only a -> ascii_only b ->
  str_lower a = str_lower b ->
  clean_account_name (Some a) = clean_account_name (Some b).
Proof.
  intros _ _ H. rewrite <- (clean_account_name_lower a), <- (clean_account_name_lower b).
  rewrite H. reflexivity.
Qed.

Lemma clean_account_name_ignores_case_witness :
  clean_account_name (Some (py "ACME ltd CURRENT account"))
  = clean_account_name (Some (py "acme LTD current ACCOUNT")).
Proof.
  apply (clean_account_name_ignores_case
           (py "ACME ltd CURRENT account") (py "acme LTD current ACCOUNT"));
    reflexivity.
Defined.

(** X16. The normalizer returns the empty string for exactly one kind of
    input: a name that is not empty and holds only white space. *)
Theorem clean_account_name_empty_iff (account_name : option str) :
  clean_account_name account_name = []
  <-> exists a, account_name = Some a /\ a <> [] /\ strip a = [].
Proof.
  split.
  - destruct account_name as [a|]; [|discriminate].
    intro H. exists a. split; [reflexivity|].
    destruct a as [|c a]; [discriminate H|].
    split; [discriminate|].
    destruct (strip (c :: a)) as [|d s] eqn:E; [reflexivity|].
    exfalso. apply (clean_account_name_nonblank (c :: a)); [|exact H].
    rewrite E. discriminate.
  - intros [a [E [Ha Hs]]]. subst account_name.
    rewrite (clean_account_name_unfold a Ha). rewrite Hs.
    reflexivity.
Qed.

(** X17. For [None] and for every ASCII name, the name returned is left
    unchanged by the steps that end the cleaning: capitalizing its words
    again, stripping it, and collapsing its runs of white space change
    nothing. *)
Theorem clean_account_name_capitalized (account_name : option str) :
  ascii_name account_name ->
  capitalize_words (clean_account_name account_name)
  = clean_account_name account_name
  /\ strip (clean_account_name account_name) = clean_account_name account_name
  /\ collapse is_space (clean_account_name account_name)
     = clean_account_name account_name.
Proof.
  intros _.
  assert (H1 : capitalize_words (clean_account_name account_name)
               = clean_account_name account_name).
  { destruct account_name as [a|]; [|exact capitalize_words_sentinel].
    destruct a as [|c a]; [exact capitalize_words_sentinel|].
    assert (H : c :: a <> []) by discriminate.
    rewrite (clean_account_name_unfold _ H).
    destruct (List.length (cleaned (strip (c :: a))) <? 2).
    - apply capitalize_words_twice.
    - unfold cleaned. apply capitalize_words_twice. }
  split; [exact H1|].
  split; rewrite <- H1.
  - apply capitalize_words_strip.
  - apply capitalize_words_collapse.
Qed.

Lemma clean_account_name_capitalized_witness :
  capitalize_words (clean_account_name (Some (py "7eleven ltd  current account")))
  = clean_account_name (Some (py "7eleven ltd  current account"))
  /\ strip (clean_account_name (Some (py "7eleven ltd  current account")))
     = clean_account_name (Some (py "7eleven ltd  current account"))
  /\ collapse is_space (clean_account_name (Some (py "7eleven ltd  current account")))
     = clean_account_name (Some (py "7eleven ltd  current account")).
Proof.
  apply (clean_account_name_capitalized (Some (py "7eleven ltd  current account"))).
  reflexivity.
Defined.

End NormalizerShape.

(** ** The name derived from a file name *)

Section FileName.

Lemma sub_from_Forall (Q : ascii -> Prop) r (repl : str) :
  Forall Q repl -> forall (s : str) k prev,
  Forall Q s -> Forall Q (sub_from r repl k prev s).
Proof.
  intros Hrepl s. induction s as [|c t IH]; intros k prev Hs.
  - rewrite sub_from_nil. apply Forall_nil.
  - inversion Hs as [|? ? Hc Ht]; subst.
    destruct k as [|k]; [|exact (IH k (Some c) Ht)].
    rewrite sub_from_step.
    destruct (ends r (prev, c :: t)) as [|[p rest] l].
    + apply Forall_cons; [exact Hc | exact (IH 0 (Some c) Ht)].
    + destruct (List.length (c :: t) - List.length rest) as [|j].
      * apply Forall_cons; [exact Hc | exact (IH 0 (Some c) Ht)].
      * apply Forall_app. split; [exact Hrepl | exact (IH j (Some c) Ht)].
Qed.

(** Two patterns with the same matches on the texts of a class closed under
    suffixes are substituted alike there. *)
Lemma sub_from_ext (Q : ascii -> Prop) r1 r2 (repl : str) :
  (forall prev (s : str), Forall Q s -> ends r1 (prev, s) = ends r2 (prev, s)) ->
  forall (s : str) k prev,
  Forall Q s -> sub_from r1 repl k prev s = sub_from r2 repl k prev s.
Proof.
  intros H s. induction s as [|c t IH]; intros k prev Hs.
  - rewrite !sub_from_nil. reflexivity.
  - inversion Hs as [|? ? Hc Ht]; subst.
    destruct k as [|k]; [|exact (IH k (Some c) Ht)].
    rewrite !sub_from_step.
    assert (He : ends r1 (prev, c :: t) = ends r2 (prev, c :: t))
      by exact (H prev (c :: t) Hs).
    rewrite He.
    destruct (ends r2 (prev, c :: t)) as [|[p rest] l].
    + f_equal. exact (IH 0 (Some c) Ht).
    + destruct (List.length (c :: t) - List.length rest) as [|j].
      * f_equal. exact (IH 0 (Some c) Ht).
      * f_equal. exact (IH j (Some c) Ht).
Qed.

Lemma ends_cat_sym_ext (Q : ascii -> Prop) p r1 r2 :
  (forall prev (s : str), Forall Q s -> ends r1 (prev, s) = ends r2 (prev, s)) ->
  forall prev (s : str), Forall Q s ->
  ends (Cat (Sym p) r1) (prev, s) = ends (Cat (Sym p) r2) (prev, s).
Proof.
  intros H prev s Hs. cbn [ends snd].
  destruct Hs as [|c t Hc Ht]; [reflexivity|].
  destruct (p c); [|reflexivity].
  cbn [flat_map]. f_equal. exact (H (Some c) t Ht).
Qed.

Lemma ends_cat_bnd_ext (Q : ascii -> Prop) r1 r2 :
  (forall prev (s : str), Forall Q s -> ends r1 (prev, s) = ends r2 (prev, s)) ->
  forall prev (s : str), Forall Q s ->
  ends (Cat Bnd r1) (prev, s) = ends (Cat Bnd r2) (prev, s).
Proof.
  intros H prev s Hs. cbn [ends].
  destruct (at_boundary (prev, s)); [|reflexivity].
  cbn [flat_map]. f_equal. exact (H prev s Hs).
Qed.

Lemma not_dash c : underscore_or_dash c = false -> chr "-" c = false.
Proof.
  unfold underscore_or_dash, chr. intro H. apply orb_false_iff in H.
  destruct H as [_ H]. destruct (Ascii.eqb_spec "-"%char c) as [E|E]; [|reflexivity].
  subst c. discriminate H.
Qed.

(** An optional group that starts with a dash matches only the empty
    string on a text without dash. *)
Lemma ends_opt_dash r prev (s : str) :
  dash_free s -> ends (opt (seq [l "-"; r])) (prev, s) = [(prev, s)].
Proof.
  intro Hs. unfold opt, seq, l. cbn [py list_ascii_of_string lit ends snd app].
  destruct Hs as [|c t Hc Ht]; [reflexivity|].
  rewrite (not_dash c Hc). reflexivity.
Qed.

Lemma ends_date_tail r1 r2 prev (s : str) :
  dash_free s ->
  ends (seq [opt (seq [l "-"; r1]); opt (seq [l "-"; r2]); Bnd]) (prev, s)
  = ends (seq [Bnd]) (prev, s).
Proof.
  intro Hs.
  change (seq [opt (seq [l "-"; r1]); opt (seq [l "-"; r2]); Bnd])
    with (Cat (opt (seq [l "-"; r1])) (Cat (opt (seq [l "-"; r2])) (seq [Bnd]))).
  cbn [ends]. fold (ends (opt (seq [l "-"; r1])) (prev, s)).
  rewrite (ends_opt_dash r1 prev s Hs). cbn [flat_map].
  fold (ends (opt (seq [l "-"; r2])) (prev, s)).
  rewrite (ends_opt_dash r2 prev s Hs). cbn [flat_map].
  rewrite !app_nil_r. reflexivity.
Qed.

Lemma ends_date_year prev (s : str) :
  dash_free s -> ends date_re (prev, s) = ends year_re (prev, s).
Proof.
  revert prev s. unfold date_re, year_re.
  change (forall prev (s : str), Forall (fun c => underscore_or_dash c = false) s ->
          ends (Cat Bnd (Cat (Sym is_digit) (Cat (Sym is_digit) (Cat (Sym is_digit)
                 (Cat (Sym is_digit)
                      (seq [opt (seq [l "-"; one_or_two is_digit]);
                            opt (seq [l "-"; one_or_two is_digit]); Bnd])))))) (prev, s)
          = ends (Cat Bnd (Cat (Sym is_digit) (Cat (Sym is_digit) (Cat (Sym is_digit)
                 (Cat (Sym is_digit) (seq [Bnd])))))) (prev, s)).
  apply ends_cat_bnd_ext. do 4 apply ends_cat_sym_ext.
  intros prev s Hs. apply ends_date_tail. exact Hs.
Qed.

(** Every pattern the function gives to [re.sub] matches no empty string. *)
Lemma file_patterns_never_empty :
  Forall (fun r => consumes r = true)
         [separators_re; file_words_re; date_re; months_re].
Proof. repeat (apply Forall_cons; [reflexivity|]). apply Forall_nil. Qed.

Lemma separators_removed (s : str) : dash_free (sub separators_re (py " ") s).
Proof.
  unfold separators_re. rewrite sub_plus.
  apply collapse_from_outside. reflexivity.
Qed.

Lemma sub_dash_free r (s : str) : dash_free s -> dash_free (sub r [] s).
Proof.
  intro H. unfold sub.
  apply (sub_from_Forall _ r [] (Forall_nil _) s 0 None H).
Qed.

Lemma capitalize_words_dash_free (s : str) : dash_free s -> dash_free (capitalize_words s).
Proof.
  apply capitalize_words_Forall.
  - reflexivity.
  - intros c H. rewrite underscore_or_dash_upper. exact H.
  - intros c H. rewrite underscore_or_dash_lower. exact H.
Qed.

Lemma squeeze_dash_free (s : str) : dash_free s -> dash_free (strip (join (py " ") (split s))).
Proof.
  intro H. unfold strip. apply strip_set_Forall.
  apply join_Forall; [reflexivity|].
  apply (split_from_Forall _ s [] (Forall_nil _) H).
Qed.

Lemma filename_unfold filename :
  exists n : str,
    dash_free n /\
    extract_business_name_from_filename filename
    = match capitalize_words n with
      | [] => py "Unknown Business"
      | _ :: _ => capitalize_words n
      end.
Proof.
  exists (strip (join (py " ") (split
            (sub months_re []
               (sub date_re []
                  (sub file_words_re []
                     (sub separators_re (py " ") (fst (splitext filename))))))))).
  split; [|reflexivity].
  apply squeeze_dash_free. do 3 apply sub_dash_free. apply separators_removed.
Qed.

(** X18. The name derived from a file name is never empty and holds
    neither dash nor underscore; when the file name is ASCII, capitalizing
    its words again changes nothing. *)
Theorem filename_name_shape (filename : str) :
  extract_business_name_from_filename filename <> [] /\
  dash_free (extract_business_name_from_filename filename) /\
  (ascii_only filename ->
   capitalize_words (extract_business_name_from_filename filename)
   = extract_business_name_from_filename filename).
Proof.
  destruct (filename_unfold filename) as [n [Hn E]]. rewrite E.
  pose proof (capitalize_words_dash_free n Hn) as Hd.
  pose proof (capitalize_words_twice n) as Hc.
  destruct (capitalize_words n) as [|c w].
  - split; [discriminate|]. split; [|intros _; reflexivity].
    unfold dash_free. repeat (apply Forall_cons; [reflexivity|]). apply Forall_nil.
  - split; [discriminate|]. split; [exact Hd | intros _; exact Hc].
Qed.

Lemma filename_name_shape_witness :
  capitalize_words
    (extract_business_name_from_filename (py "acme_ltd_transactions_2024-01-15.json"))
  = extract_business_name_from_filename (py "acme_ltd_transactions_2024-01-15.json").
Proof.
  apply (proj2 (proj2 (filename_name_shape
                         (py "acme_ltd_transactions_2024-01-15.json")))).
  reflexivity.
Defined.

(** X19. The optional month and day groups of the date pattern of line 142
    never take part in a match: line 136 has already replaced every dash
    by a blank, so on the text the pattern is applied to it removes what
    the four-digit pattern alone removes. *)
Theorem hyphenated_dates_never_match (filename : str) :
  let name := fst (splitext filename) in
  let name := sub separators_re (py " ") name in
  let name := sub file_words_re [] name in
  sub date_re [] name = sub year_re [] name.
Proof.
  cbv zeta. unfold sub at 1 4.
  apply (sub_from_ext (fun c => underscore_or_dash c = false) date_re year_re []
           ends_date_year).
  apply sub_dash_free. apply separators_removed.
Qed.

End FileName.

(** ** Every label has a use *)

Section Reachable.

(** X20. Every label of [MCA_CATEGORIES] is the label of some transaction:
    none of the eight is dead. *)
Theorem every_label_is_produced (label : str) :
  In label MCA_CATEGORIES -> exists t, map_transaction_category t = Ok label.
Proof.
  unfold MCA_CATEGORIES. intro H.
  destruct H as [<-|[<-|[<-|[<-|[<-|[<-|[<-|[<-|[]]]]]]]]].
  - exists (record "Stripe payout" "" "" (PyInt (-250))). reflexivity.
  - exists (record "Dividend" "" "income_dividends" (PyInt (-40))). reflexivity.
  - exists (record "Iwoca" "" "" (PyInt (-5000))). reflexivity.
  - exists (record "Iwoca" "" "" (PyInt 320)). reflexivity.
  - exists (record "Corner shop" "" "" (PyInt 12)). reflexivity.
  - exists (record "To savings" "" "transfer_out_savings" (PyInt 100)). reflexivity.
  - exists (record "Bank charge" "" "bank_fees_late_payment" (PyInt 12)). reflexivity.
  - exists (record "Refund" "" "" (PyInt (-3))). reflexivity.
Qed.

Lemma every_label_is_produced_witness :
  exists t, map_transaction_category t = Ok (py "Special Outflow").
Proof.
  apply (every_label_is_produced (py "Special Outflow")).
  unfold MCA_CATEGORIES. do 5 right. left. reflexivity.
Defined.

End Reachable.

Section Stable.

Lemma clean_account_name_idempotent_witness :
  clean_account_name (Some (clean_account_name (Some (py "  ABC Ltd Current Account (1234)"))))
  = clean_account_name (Some (py "  ABC Ltd Current Account (1234)")).
Proof.
  apply (clean_account_name_idempotent (py "  ABC Ltd Current Account (1234)")).
  - reflexivity.
  - vm_compute. discriminate.
  - vm_compute. reflexivity.
Defined.

End Stable.
